(** * Bookmarks: table-of-contents lines, bookmark trees and flat outlines

    A shallow embedding of [bookmarks.py]: the line parser
    ([TOC_LINE_PATTERN], [parse_toc_line]), the entry extractor
    ([extract_toc_entries]), the tree builder ([build_bookmark_tree]) and
    the projector ([tree_to_toc]).

    Text is a sequence of code points.  The development covers text whose
    code points lie in U+0000..U+00FF, one [ascii] per code point. *)

From Stdlib Require Import ZArith Ascii String List Lia.
From stdpp Require Import base option list gmap.

Local Open Scope Z_scope.
Set Warnings "-register-all".

(** ** Text and character classes *)

Abbreviation str := (list ascii).

(** A literal of the source, as a sequence of code points. *)
Definition txt (s : string) : str := list_ascii_of_string s.

Definition code (a : ascii) : N := N_of_ascii a.

(** [\d] on code points below 256: the decimal digits [0-9]. *)
Definition is_digit (a : ascii) : bool :=
  ((48 <=? code a) && (code a <=? 57))%N.

(** [\s] and [str.strip]: Python's whitespace on code points below 256,
    that is TAB..CR, FS..US, SPACE, NEL and NBSP. *)
Definition is_space (a : ascii) : bool :=
  (((9 <=? code a) && (code a <=? 13))
   || ((28 <=? code a) && (code a <=? 32))
   || (code a =? 133) || (code a =? 160))%N.

(** [\.] *)
Definition is_dot (a : ascii) : bool := (code a =? 46)%N.

(** [.] without DOTALL: anything but a line feed. *)
Definition is_any (a : ascii) : bool := negb (code a =? 10)%N.

(** ** String methods used by the source *)

(** [s.lstrip()] *)
Fixpoint lstrip (s : str) : str :=
  match s with
  | a :: s' => if is_space a then lstrip s' else s
  | [] => []
  end.

(** [s.rstrip()] *)
Fixpoint rstrip (s : str) : str :=
  match s with
  | a :: s' =>
      match rstrip s' with
      | [] => if is_space a then [] else [a]
      | r => a :: r
      end
  | [] => []
  end.

(** [s.strip()] *)
Definition strip (s : str) : str := rstrip (lstrip s).

(** [s.count(".")] *)
Fixpoint count_dots (s : str) : Z :=
  match s with
  | a :: s' => (if is_dot a then 1 else 0) + count_dots s'
  | [] => 0
  end.

Definition digit_value (a : ascii) : Z := Z.of_N (code a) - 48.

(** The value of a run of decimal digits, [None] when a character is not a
    digit. *)
Fixpoint int_digits (acc : Z) (s : str) : option Z :=
  match s with
  | a :: s' => if is_digit a then int_digits (10 * acc + digit_value a) s' else None
  | [] => Some acc
  end.

(** [sys.get_int_max_str_digits()], as the interpreter starts with it. *)
Definition int_max_str_digits : Z := 4300.

(** [int(s)] on a run of decimal digits; [None] stands for [ValueError]:
    the string is empty, holds a character that is not a digit, or has
    more digits than the interpreter converts (zeros at the front count
    as digits).  Integers themselves are unbounded. *)
Definition py_int (s : str) : option Z :=
  match s with
  | [] => None
  | _ =>
      if Z.of_nat (length s) <=? int_max_str_digits
      then int_digits 0 s
      else None
  end.

(** ** A backtracking matcher for the regular expressions of the source *)

Inductive regex : Type :=
  | Chr (p : ascii -> bool)                 (* a character class *)
  | Bol                                     (* ^ *)
  | Eol                                     (* $ *)
  | Cat (r1 r2 : regex)                     (* r1 r2 *)
  | Grp (i : nat) (r : regex)               (* ( r ), group number i *)
  | Rep (greedy : bool) (lo : nat) (hi : option nat) (r : regex).
                                            (* r{lo,hi}, r{lo,hi}? *)

Abbreviation caps := (gmap nat str).

(** First alternative that succeeds. *)
Definition orelse {R} (x y : option R) : option R :=
  match x with
  | Some _ => x
  | None => y
  end.

(** [$] without MULTILINE: at the end, or before a final line feed. *)
Definition at_end (s : str) : bool :=
  match s with
  | [] => true
  | [a] => (code a =? 10)%N
  | _ => false
  end.

Section Repeat.
Context {R : Type}.
(** The matcher of the repeated expression, and what follows the
    repetition. *)
Variable body : str -> caps -> (str -> caps -> option R) -> option R.
Variable greedy : bool.
Variable k : str -> caps -> option R.

(** One more iteration must consume input; this bounds the number of
    iterations by the length of the text, so [fuel] above that length is
    never used up. *)
Fixpoint rep_loop (fuel lo : nat) (hi : option nat) (s : str) (c : caps)
  : option R :=
  match fuel with
  | O => None
  | S fuel' =>
      let again lo' :=
        body s c (fun s' c' =>
          if decide (length s' < length s)%nat
          then rep_loop fuel' lo' (Nat.pred <$> hi) s' c'
          else None) in
      match lo with
      | S lo' => again lo'
      | O =>
          match hi with
          | Some O => k s c
          | _ =>
              if greedy then orelse (again O) (k s c)
              else orelse (k s c) (again O)
          end
      end
  end.
End Repeat.

(** [run n r s c k]: match [r] at the suffix [s] of a subject of length
    [n], with the groups [c] captured so far, then continue with [k];
    alternatives are tried in the priority order of the engine. *)
Fixpoint run {R} (n : nat) (r : regex) (s : str) (c : caps)
    (k : str -> caps -> option R) {struct r} : option R :=
  match r with
  | Chr p =>
      match s with
      | a :: s' => if p a then k s' c else None
      | [] => None
      end
  | Bol => if decide (length s = n) then k s c else None
  | Eol => if at_end s then k s c else None
  | Cat r1 r2 => run n r1 s c (fun s' c' => run n r2 s' c' k)
  | Grp i r1 =>
      run n r1 s c (fun s' c' =>
        k s' (<[i := take (length s - length s') s]> c'))
  | Rep g lo hi r1 => rep_loop (run n r1) g k (S (length s)) lo hi s c
  end.

(** [pattern.match(s)]: the groups of the match at the start of [s]. *)
Definition re_match (r : regex) (s : str) : option caps :=
  run (length s) r s ∅ (fun _ c => Some c).

(** Where a match of [r] at the suffix [s] ends. *)
Definition match_end (n : nat) (r : regex) (s : str) : option str :=
  run n r s ∅ (fun s' _ => Some s').

(** [re.sub(r, '', s)]: scan from the left, delete every match that is not
    empty, copy every other character. *)
Fixpoint sub_loop (fuel n : nat) (r : regex) (s : str) : str :=
  match fuel with
  | O => s
  | S fuel' =>
      match s with
      | [] => []
      | a :: s' =>
          match match_end n r s with
          | Some rest =>
              if decide (length rest < length s)%nat
              then sub_loop fuel' n r rest
              else a :: sub_loop fuel' n r s'
          | None => a :: sub_loop fuel' n r s'
          end
      end
  end.

Definition re_sub_delete (r : regex) (s : str) : str :=
  sub_loop (length s) (length s) r s.

Definition plus (r : regex) : regex := Rep true 1 None r.
Definition star (r : regex) : regex := Rep true 0 None r.
Definition opt (r : regex) : regex := Rep true 0 (Some 1%nat) r.
Definition lazy_plus (r : regex) : regex := Rep false 1 None r.

Declare Scope regex_scope.
Delimit Scope regex_scope with re.
Infix "·" := Cat (at level 41, right associativity) : regex_scope.

(** ** The line parser *)

(** The pattern of a contents line, spelled with blanks between its parts:
    [^ ( \d+ (?: \. \d+ )* ) \.? \s+ ( .+? ) \s+ ( \d+ ) $] *)
Definition TOC_LINE_PATTERN : regex :=
  (Bol
   · Grp 1 (plus (Chr is_digit) · star (Chr is_dot · plus (Chr is_digit)))
   · opt (Chr is_dot)
   · plus (Chr is_space)
   · Grp 2 (lazy_plus (Chr is_any))
   · plus (Chr is_space)
   · Grp 3 (plus (Chr is_digit))
   · Eol)%re.

(** [\.{2,}] *)
Definition LEADER_PATTERN : regex := Rep true 2 None (Chr is_dot).

Definition strip_leaders (s : str) : str := re_sub_delete LEADER_PATTERN s.

(** [m.group(i)] of a group that took part in the match. *)
Definition group (c : caps) (i : nat) : str := default [] (c !! i).

Inductive parsed : Type :=
  | ValueError
  | NotToc                                               (* (None, None, None) *)
  | TocLine (full_title : str) (level : Z) (page_number : Z).

Definition parse_toc_line (text : str) : parsed :=
  match re_match TOC_LINE_PATTERN (strip text) with
  | None => NotToc
  | Some m =>
      let section_number := group m 1 in
      let title_text := strip (group m 2) in
      match py_int (group m 3) with
      | None => ValueError
      | Some page_number =>
          let title_text := strip (strip_leaders title_text) in
          let full_title := section_number ++ txt " " ++ title_text in
          let level := count_dots section_number + 1 in
          TocLine full_title level page_number
      end
  end.

(** ** The entry extractor *)

Module Entry.
Record t : Type := mk { title : str; level : Z; page : Z }.
End Entry.

(** [None] stands for an exception that leaves the loop. *)
Fixpoint extract_toc_entries (paragraphs : list str) : option (list Entry.t) :=
  match paragraphs with
  | [] => Some []
  | para :: rest =>
      let text := strip para in
      match text with
      | [] => extract_toc_entries rest
      | _ =>
          match parse_toc_line text with
          | ValueError => None
          | NotToc => extract_toc_entries rest
          | TocLine full_title level page =>
              cons (Entry.mk full_title level page) <$> extract_toc_entries rest
          end
      end
  end.

(** ** The tree builder *)

(** The values a destination holds in a tree the builder writes: a page
    number and a fit mode.  What else a file may hold there ([null],
    [true], a fraction, a list, an object) is outside this model. *)
Inductive jvalue : Type :=
  | JInt (z : Z)
  | JStr (s : str).

(** A bookmark node is a mutable object: it lives in a store, at an
    address, and its children are addresses of the same store. *)
Module Node.
Record t : Type := mk {
  title : str;
  dest : list jvalue;
  color : list (str * Z);
  bold : bool;
  italic : bool;
  children : list nat
}.

(** [node["children"].append(child)] *)
Definition append_child (child : nat) (nd : t) : t :=
  mk (title nd) (dest nd) (color nd) (bold nd) (italic nd)
     (children nd ++ [child]).
End Node.

Record builder : Type := mk_builder {
  store : list Node.t;          (* the objects allocated so far *)
  root : list nat;              (* the list [root] *)
  last_nodes : gmap Z nat       (* the dict [last_nodes] *)
}.

(** [root = []] and [last_nodes = {}], before any node is created. *)
Definition new_builder : builder := mk_builder [] [] ∅.

(** [max(1, min(int(entry["level"]), 9))]; the level of an entry is an
    integer, which [int] returns as it is. *)
Definition clamp_level (level : Z) : Z := Z.max 1 (Z.min level 9).

(** The node the loop creates for an entry. *)
Definition new_node (entry : Entry.t) : Node.t :=
  Node.mk (Entry.title entry)
          [JInt (Entry.page entry); JStr (txt "Fit")]
          [(txt "0", 0); (txt "1", 0); (txt "2", 0)]
          false false [].

(** The body of the loop over the entries: the new object gets the next
    address; appending to the children of the parent changes the parent
    where it lies in the store, so every reference to it sees the child. *)
Definition add_entry (b : builder) (entry : Entry.t) : builder :=
  let level := clamp_level (Entry.level entry) in
  let node := length (store b) in
  let store1 := store b ++ [new_node entry] in
  let '(store2, root2) :=
    if level =? 1 then (store1, root b ++ [node])
    else
      match last_nodes b !! (level - 1) with
      | Some parent => (alter (Node.append_child node) parent store1, root b)
      | None => (store1, root b ++ [node])
      end in
  mk_builder store2 root2 (<[level := node]> (last_nodes b)).

(** The state in which the loop ends; the function returns its [root],
    whose addresses refer to its [store]. *)
Definition build_bookmark_tree (entries : list Entry.t) : builder :=
  foldl add_entry new_builder entries.

(** ** The bookmark tree as a value *)

(** What [json.dump] writes and [json.load] reads back: a node is an object
    whose keys may be absent. *)
Inductive bookmark : Type :=
  Bookmark (title : option str) (dest : option (list jvalue))
           (color : list (str * Z)) (bold italic : bool)
           (children : list bookmark).

(** The nested value an address denotes.  [depth] bounds the nesting that
    is followed; [None] when it is exceeded or an address is not
    allocated. *)
Fixpoint dump_node (depth : nat) (h : list Node.t) (a : nat) : option bookmark :=
  match depth with
  | O => None
  | S depth' =>
      nd ← h !! a;
      cs ← mapM (dump_node depth' h) (Node.children nd);
      Some (Bookmark (Some (Node.title nd)) (Some (Node.dest nd))
                     (Node.color nd) (Node.bold nd) (Node.italic nd) cs)
  end.

(** [json.dump(tree)]: no chain of children is longer than the number of
    objects unless it runs in a circle. *)
Definition dump_tree (b : builder) : option (list bookmark) :=
  mapM (dump_node (length (store b)) (store b)) (root b).

(** ** The projector *)

(** One record [[level, title, page]] of the flat outline. *)
Definition toc_record : Type := Z * str * Z.

Section Projector.
(** [len(doc)] *)
Variable doc_len : Z.

(** [None] stands for the [TypeError] of comparing a string with a
    number. *)
Definition dest_page (dest : option (list jvalue)) : option Z :=
  match dest with
  | Some (JInt page :: _) => Some page
  | Some (JStr _ :: _) => None
  | Some [] | None => Some 1
  end.

(** [for x in l: ...] over a body that updates a state or raises. *)
Definition for_each {A S} (body : A -> S -> option S)
  : list A -> S -> option S :=
  fix go l s :=
    match l with
    | [] => Some s
    | x :: l' => s' ← body x s; go l' s'
    end.

(** The body of the loop of [tree_to_toc].  [toc_list] is threaded
    through the calls: the source appends to one shared list. *)
Fixpoint toc_of_node (parent_level : Z) (node : bookmark)
    (toc_list : list toc_record) {struct node} : option (list toc_record) :=
  match node with
  | Bookmark title dest _ _ _ children =>
      let level := parent_level + 1 in
      let title := default (txt "Untitled") title in
      page ← dest_page dest;
      let page := Z.max 1 (Z.min page doc_len) in
      let toc_list := toc_list ++ [(level, title, page)] in
      for_each (toc_of_node level) children toc_list
  end.

Definition tree_to_toc (nodes : list bookmark) (toc_list : list toc_record)
    (parent_level : Z) : option (list toc_record) :=
  for_each (toc_of_node parent_level) nodes toc_list.
End Projector.

(** * Notions for the statements and their proofs *)

(** What the engine does on [p{lo,}] and [p{lo,}?], by recursion on the
    text instead of on fuel. *)
Fixpoint rep_chr {R} (p : ascii -> bool) (g : bool)
    (k : str -> caps -> option R) (lo : nat) (s : str) (c : caps)
    {struct s} : option R :=
  let more lo' :=
    match s with
    | a :: s' => if p a then rep_chr p g k lo' s' c else None
    | [] => None
    end in
  match lo with
  | S lo' => more lo'
  | O => if g then orelse (more O) (k s c) else orelse (k s c) (more O)
  end.

(** Whether the text starts with a character of the class. *)
Definition starts (p : ascii -> bool) (s : str) : bool :=
  match s with
  | a :: _ => p a
  | [] => false
  end.

(** The text behind its longest prefix of the class. *)
Fixpoint skip (p : ascii -> bool) (s : str) : str :=
  match s with
  | a :: s' => if p a then skip p s' else s
  | [] => []
  end.

(** The end of the pattern: blanks, the page number, the end of the line. *)
Definition TAIL_PATTERN : regex :=
  (plus (Chr is_space) · Grp 3 (plus (Chr is_digit)) · Eol)%re.

(** One or more runs of digits, separated by single dots. *)
Fixpoint dotted (after_digit : bool) (s : str) : bool :=
  match s with
  | a :: s' =>
      if is_digit a then dotted true s'
      else if is_dot a then after_digit && dotted false s'
      else false
  | [] => after_digit
  end.

Definition is_section_number (s : str) : bool := dotted false s.

(** The text [.d1.d2...] of the runs [d1], [d2], ... *)
Fixpoint dot_parts (comps : list str) : str :=
  match comps with
  | d :: comps' => "."%char :: d ++ dot_parts comps'
  | [] => []
  end.

(** A run of digits that is not empty. *)
Definition digits (d : str) : Prop := d <> [] /\ forallb is_digit d = true.

(** Whether the text starts with a dot and a digit. *)
Definition starts_dot_digit (s : str) : bool :=
  match s with
  | a :: s' => is_dot a && starts is_digit s'
  | [] => false
  end.

(** From the blanks behind the section number to the end of the line. *)
Definition BODY_PATTERN : regex :=
  (plus (Chr is_space) · Grp 2 (lazy_plus (Chr is_any)) · TAIL_PATTERN)%re.

(** From the title to the end of the line. *)
Definition TITLE_PATTERN : regex :=
  (Grp 2 (lazy_plus (Chr is_any)) · TAIL_PATTERN)%re.

(** No two dots in a row. *)
Fixpoint no_runs (s : str) : bool :=
  match s with
  | a :: s' => negb (is_dot a && starts is_dot s') && no_runs s'
  | [] => true
  end.

(** The number a run of decimal digits denotes. *)
Definition decimal (s : str) : Z :=
  fold_left (fun acc a => 10 * acc + digit_value a) s 0.

(** The text of a contents line: the section number, a dot or none, a
    blank, the title, a blank, the page number. *)
Definition toc_line (nums : str) (trailing_dot : bool) (title page : str) : str :=
  nums ++ (if trailing_dot then txt "." else []) ++ txt " " ++ title
       ++ txt " " ++ page.

(** The shape of a tree in the store: the address of a node and the
    shapes of its children. *)
Inductive atree : Type :=
  ANode (a : nat) (ts : list atree).

Definition addr_of (t : atree) : nat :=
  match t with ANode a _ => a end.

(** The addresses of a shape, a node before its children. *)
Fixpoint addrs_of (t : atree) : list nat :=
  match t with ANode a ts => a :: flat_map addrs_of ts end.

(** The number of nodes on the longest path from the root. *)
Fixpoint height (t : atree) : nat :=
  match t with ANode _ ts => S (max_list (map height ts)) end.

(** The store holds a tree of shape [t] at the address of [t]. *)
Inductive denotes (h : list Node.t) : atree -> Prop :=
  denotes_node a ts nd :
    h !! a = Some nd ->
    Node.children nd = map addr_of ts ->
    Forall (denotes h) ts ->
    denotes h (ANode a ts).

(** Read at an address that holds no object. *)
Definition no_node : Node.t := Node.mk [] [] [] false false [].

(** The value of a shape, read from the store. *)
Fixpoint erase (h : list Node.t) (t : atree) : bookmark :=
  match t with
  | ANode a ts =>
      let nd := default no_node (h !! a) in
      Bookmark (Some (Node.title nd)) (Some (Node.dest nd)) (Node.color nd)
               (Node.bold nd) (Node.italic nd) (map (erase h) ts)
  end.

(** A node without its children. *)
Definition label : Type :=
  option str * option (list jvalue) * list (str * Z) * bool * bool.

Definition node_label (nd : Node.t) : label :=
  (Some (Node.title nd), Some (Node.dest nd), Node.color nd, Node.bold nd,
   Node.italic nd).

(** The nodes of a bookmark tree, a node before its children, the children
    in their order. *)
Fixpoint labels_of (b : bookmark) : list label :=
  match b with
  | Bookmark title dest color bold italic children =>
      (title, dest, color, bold, italic) :: flat_map labels_of children
  end.

(** The shape after a leaf at address [n] is appended to the children of
    the node at address [p]. *)
Fixpoint graft (p n : nat) (t : atree) : atree :=
  match t with
  | ANode a ts =>
      ANode a (map (graft p n) ts
               ++ (if decide (a = p) then [ANode n []] else []))
  end.

(** The node at an address, without its children. *)
Definition label_at (h : list Node.t) (a : nat) : label :=
  node_label (default no_node (h !! a)).

(** How often an address occurs. *)
Definition occurrences (p : nat) (l : list nat) : nat :=
  count_occ Nat.eq_dec l p.

(** The roots denote the shapes [F]; every object of the store occurs in
    them once; [last_nodes] refers to objects of the store. *)
Definition shaped (b : builder) (F : list atree) : Prop :=
  map addr_of F = root b
  /\ Forall (denotes (store b)) F
  /\ flat_map addrs_of F ≡ₚ seq 0 (length (store b))
  /\ (forall l a, last_nodes b !! l = Some a -> (a < length (store b))%nat).

(** The two ways an entry is placed. *)
Definition placed_as_root (b : builder) (entry : Entry.t) : builder :=
  mk_builder (store b ++ [new_node entry])
             (root b ++ [length (store b)])
             (<[clamp_level (Entry.level entry) := length (store b)]> (last_nodes b)).

Definition placed_under (parent : nat) (b : builder) (entry : Entry.t) : builder :=
  mk_builder (alter (Node.append_child (length (store b))) parent
                    (store b ++ [new_node entry]))
             (root b)
             (<[clamp_level (Entry.level entry) := length (store b)]> (last_nodes b)).

(** The bookmark of an entry, as [json.dump] writes it. *)
Definition bookmark_of (entry : Entry.t) (children : list bookmark) : bookmark :=
  Bookmark (Some (Entry.title entry))
           (Some [JInt (Entry.page entry); JStr (txt "Fit")])
           [(txt "0", 0); (txt "1", 0); (txt "2", 0)]
           false false children.

(** The three parts of a record of the outline. *)
Definition toc_level (r : toc_record) : Z := r.1.1.
Definition toc_title (r : toc_record) : str := r.1.2.
Definition toc_page (r : toc_record) : Z := r.2.

(** The nodes of a tree in depth-first pre-order, children in their
    order, each with its depth: a child is one deeper than its parent. *)
Fixpoint nodes_with_depth (depth : Z) (node : bookmark) : list (Z * bookmark) :=
  match node with
  | Bookmark _ _ _ _ _ children =>
      (depth, node) :: flat_map (nodes_with_depth (depth + 1)) children
  end.

(** The nodes of a forest: its roots have depth 1. *)
Definition forest_nodes (forest : list bookmark) : list (Z * bookmark) :=
  flat_map (nodes_with_depth 1) forest.

(** The page a node declares, 1 when it declares none. *)
Definition declared_page (node : bookmark) : Z :=
  match node with
  | Bookmark _ (Some (JInt page :: _)) _ _ _ _ => page
  | _ => 1
  end.

(** The title of a node, ["Untitled"] when it has none. *)
Definition declared_title (node : bookmark) : str :=
  match node with
  | Bookmark title _ _ _ _ _ => default (txt "Untitled") title
  end.

(** The page clamped into [1, total]. *)
Definition clamp_page (total page : Z) : Z := Z.max 1 (Z.min page total).

(** The record of the outline for a node at a depth. *)
Definition record_of (total : Z) (dn : Z * bookmark) : toc_record :=
  (dn.1, declared_title dn.2, clamp_page total (declared_page dn.2)).

(** No node declares a page that is a string. *)
Fixpoint page_is_number (node : bookmark) : bool :=
  match node with
  | Bookmark _ dest _ _ _ children =>
      match dest_page dest with
      | Some _ => forallb page_is_number children
      | None => false
      end
  end.

(** What a node shows of its entry. *)
Definition entry_label (entry : Entry.t) : label :=
  (Some (Entry.title entry),
   Some [JInt (Entry.page entry); JStr (txt "Fit")],
   [(txt "0", 0); (txt "1", 0); (txt "2", 0)], false, false).

(** The example of four lines, its entries, its forest and its outline. *)
Definition example_entries : list Entry.t :=
  [Entry.mk (txt "1 Overview") 1 5; Entry.mk (txt "1.1 Scope") 2 6;
   Entry.mk (txt "1.2 Goals") 2 8; Entry.mk (txt "2 Design") 1 10].

Definition example_forest : list bookmark :=
  [bookmark_of (Entry.mk (txt "1 Overview") 1 5)
     [bookmark_of (Entry.mk (txt "1.1 Scope") 2 6) [];
      bookmark_of (Entry.mk (txt "1.2 Goals") 2 8) []];
   bookmark_of (Entry.mk (txt "2 Design") 1 10) []].

Definition example_outline : list toc_record :=
  [(1, txt "1 Overview", 5); (2, txt "1.1 Scope", 6);
   (2, txt "1.2 Goals", 8); (1, txt "2 Design", 10)].

(** A forest whose pages lie outside a document of ten pages. *)
Definition pages_out_of_range : list bookmark :=
  [bookmark_of (Entry.mk (txt "1 Cover") 1 0)
     [bookmark_of (Entry.mk (txt "1.1 Back") 2 (-3)) []];
   bookmark_of (Entry.mk (txt "2 Index") 1 99) []].

Definition example_lines : list str :=
  [txt "1. Overview 5"; txt "1.1 Scope 6"; txt "1.2 Goals 8";
   txt "2. Design 10"].

(** * Further notions *)

(** The numbers of the groups of an expression. *)
Fixpoint groups_of (r : regex) : list nat :=
  match r with
  | Chr _ | Bol | Eol => []
  | Cat r1 r2 => groups_of r1 ++ groups_of r2
  | Grp i r1 => i :: groups_of r1
  | Rep _ _ _ r1 => groups_of r1
  end.

(** A matcher that, when it returns, has called its continuation on a
    suffix of its text, with the groups outside [G] as they were. *)
Definition reaches {R} (G : list nat)
    (f : str -> caps -> (str -> caps -> option R) -> option R) : Prop :=
  forall s c k x, f s c k = Some x ->
    exists w s' c', s = w ++ s' /\ k s' c' = Some x
                    /\ (forall i, i ∉ G -> c' !! i = c !! i).

(** Whether the last character of the text is of the class. *)
Definition ends (p : ascii -> bool) (s : str) : bool :=
  match last s with
  | Some a => p a
  | None => false
  end.

(** The text without its dots. *)
Definition without_dots (s : str) : str :=
  List.filter (fun a => negb (is_dot a)) s.

(** The entry of a paragraph that is a contents line. *)
Definition entry_of_line (para : str) : option Entry.t :=
  match parse_toc_line para with
  | TocLine full_title level page => Some (Entry.mk full_title level page)
  | _ => None
  end.

(** The levels an outline may have, one after the other: a level is at
    least 1 and at most one more than the level before it; [prev] is the
    level before the first, 0 at the start of the outline. *)
Fixpoint steps_ok (prev : Z) (levels : list Z) : Prop :=
  match levels with
  | [] => True
  | level :: rest => 1 <= level <= prev + 1 /\ steps_ok level rest
  end.

(** Whether the destination of a node starts with a string. *)
Definition page_is_string (node : bookmark) : bool :=
  match node with
  | Bookmark _ (Some (JStr _ :: _)) _ _ _ _ => true
  | _ => false
  end.

(** The levels the builder works with, one for each entry. *)
Definition levels_of (entries : list Entry.t) : list Z :=
  map (fun entry => clamp_level (Entry.level entry)) entries.

(** In a shape at depth [d], no node lies deeper than its level. *)
Inductive deep (levels : list Z) : Z -> atree -> Prop :=
  deep_node d a ts l :
    levels !! a = Some l -> d <= l ->
    Forall (deep levels (d + 1)) ts ->
    deep levels d (ANode a ts).


(** Whether the builder takes an entry for one of level 1. *)
Definition is_level_1 (entry : Entry.t) : bool :=
  clamp_level (Entry.level entry) =? 1.

(** The root of a bookmark tree, without its children. *)
Definition root_label (b : bookmark) : label :=
  match b with
  | Bookmark title dest color bold italic _ => (title, dest, color, bold, italic)
  end.

(** An entry with its level clamped. *)
Definition clamp_entry (entry : Entry.t) : Entry.t :=
  Entry.mk (Entry.title entry) (clamp_level (Entry.level entry))
           (Entry.page entry).

(** A table of contents as a tree: the title and the page of a heading,
    and the headings below it. *)
Inductive etree : Type :=
  ETree (title : str) (page : Z) (children : list etree).

(** The entries of a tree whose root has the level [level], a heading
    before the headings below it, which are one level deeper. *)
Fixpoint entries_of (level : Z) (t : etree) : list Entry.t :=
  match t with
  | ETree title page children =>
      Entry.mk title level page :: flat_map (entries_of (level + 1)) children
  end.

(** The bookmark tree of a table of contents. *)
Fixpoint bookmark_tree (t : etree) : bookmark :=
  match t with
  | ETree title page children =>
      Bookmark (Some title) (Some [JInt page; JStr (txt "Fit")])
               [(txt "0", 0); (txt "1", 0); (txt "2", 0)] false false
               (map bookmark_tree children)
  end.

(** The number of headings on the longest path from the root. *)
Fixpoint eheight (t : etree) : nat :=
  match t with ETree _ _ children => S (max_list (map eheight children)) end.

(** The number of headings. *)
Fixpoint esize (t : etree) : nat :=
  match t with ETree _ _ children => S (sum_list (map esize children)) end.

(** The addresses of the roots of trees that lie one behind the other in
    the store, from the address [n] on. *)
Fixpoint roots_from (n : nat) (ts : list etree) : list nat :=
  match ts with
  | [] => []
  | t :: ts' => n :: roots_from (n + esize t)%nat ts'
  end.

(** The objects of a tree that lies in the store from the address [n] on:
    the root, then the trees of its children, one behind the other. *)
Fixpoint layout (n : nat) (t : etree) {struct t} : list Node.t :=
  match t with
  | ETree title page children =>
      Node.mk title [JInt page; JStr (txt "Fit")]
              [(txt "0", 0); (txt "1", 0); (txt "2", 0)] false false
              (roots_from (S n) children)
      :: (fix go (m : nat) (ts : list etree) : list Node.t :=
            match ts with
            | [] => []
            | t' :: ts' => layout m t' ++ go (m + esize t')%nat ts'
            end) (S n) children
  end.

Definition layout_forest : nat -> list etree -> list Node.t :=
  fix go (m : nat) (ts : list etree) : list Node.t :=
    match ts with
    | [] => []
    | t' :: ts' => layout m t' ++ go (m + esize t')%nat ts'
    end.

(** [node["children"]] extended by several children. *)
Definition append_children (children : list nat) (nd : Node.t) : Node.t :=
  Node.mk (Node.title nd) (Node.dest nd) (Node.color nd) (Node.bold nd)
          (Node.italic nd) (Node.children nd ++ children).

(** What the builder does with the entries of a tree, at a level [d] that
    with the height of the tree stays within 9: the objects of the tree
    are added behind the store, the root of the tree becomes a root (at
    level 1) or the last child of the node of level [d - 1], and
    [last_nodes] changes at the levels from [d] on only. *)
Definition builds_subtree (t : etree) : Prop :=
  forall d b,
    1 <= d -> d + Z.of_nat (eheight t) <= 10 ->
    let n := length (store b) in
    let b' := foldl add_entry b (entries_of d t) in
    last_nodes b' !! d = Some n
    /\ (forall l, l < d -> last_nodes b' !! l = last_nodes b !! l)
    /\ (d = 1 -> store b' = store b ++ layout n t /\ root b' = root b ++ [n])
    /\ (forall p, 1 < d -> last_nodes b !! (d - 1) = Some p ->
                  (p < n)%nat ->
                  store b' = alter (Node.append_child n) p (store b) ++ layout n t
                  /\ root b' = root b).

(** The record of an entry in an outline. *)
Definition record_of_entry (total : Z) (entry : Entry.t) : toc_record :=
  (Entry.level entry, Entry.title entry, clamp_page total (Entry.page entry)).

(** The entry a record of an outline stands for. *)
Definition entry_of_record (r : toc_record) : Entry.t :=
  Entry.mk (toc_title r) (toc_level r) (toc_page r).

(** Whether the pages of a table of contents lie within a document. *)
Fixpoint pages_within (total : Z) (t : etree) : bool :=
  match t with
  | ETree _ page children =>
      (1 <=? page) && (page <=? total) && forallb (pages_within total) children
  end.

(** The last tree of a forest, its last child and so on reach [d]
    headings down. *)
Inductive spine : nat -> list etree -> Prop :=
| spine_0 forest : spine 0 forest
| spine_S d init title page children :
    spine d children -> spine (S d) (init ++ [ETree title page children]).

(** The level of the last entry, [prev] when there is none. *)
Definition last_level (prev : Z) (levels : list Z) : Z :=
  default prev (last levels).

(** A table of contents of two chapters, the first with two sections. *)
Definition example_contents : list etree :=
  [ETree (txt "1 Overview") 5
     [ETree (txt "1.1 Scope") 6 []; ETree (txt "1.2 Goals") 8 []];
   ETree (txt "2 Design") 10 []].

(** A page number of 4301 digits. *)
Definition long_page : str := replicate (Z.to_nat 4301) "9"%char.

(** Whether the line parser raises on a paragraph. *)
Definition raises (para : str) : bool :=
  match parse_toc_line para with
  | ValueError => true
  | _ => false
  end.

(** * Properties *)

(** ** Character classes *)

Ltac by_cases_on_char a :=
  destruct a as [[] [] [] [] [] [] [] []]; vm_compute; intros; congruence.

Lemma digit_not_space a : is_digit a = true -> is_space a = false.
Proof. by_cases_on_char a. Qed.

Lemma digit_not_dot a : is_digit a = true -> is_dot a = false.
Proof. by_cases_on_char a. Qed.

Lemma dot_not_digit a : is_dot a = true -> is_digit a = false.
Proof. by_cases_on_char a. Qed.

Lemma dot_not_space a : is_dot a = true -> is_space a = false.
Proof. by_cases_on_char a. Qed.

Lemma space_not_dot a : is_space a = true -> is_dot a = false.
Proof. by_cases_on_char a. Qed.

Lemma digit_not_newline a : is_digit a = true -> (code a =? 10)%N = false.
Proof. by_cases_on_char a. Qed.

Lemma digit_value_range a : is_digit a = true -> 0 <= digit_value a <= 9.
Proof.
  destruct a as [[] [] [] [] [] [] [] []]; vm_compute; intros;
    try congruence; split; congruence.
Qed.

(** ** Repetition of a character class *)

Lemma rep_loop_chr {R} n p g (k : str -> caps -> option R) fuel lo s c :
  (length s < fuel)%nat ->
  rep_loop (run n (Chr p)) g k fuel lo None s c = rep_chr p g k lo s c.
Proof.
  revert lo s c. induction fuel as [|fuel IH]; intros lo s c Hlen; [lia|].
  assert (Hmore : forall lo',
    run n (Chr p) s c (fun s' c' =>
      if decide (length s' < length s)%nat
      then rep_loop (run n (Chr p)) g k fuel lo' None s' c' else None)
    = match s with
      | a :: s' => if p a then rep_chr p g k lo' s' c else None
      | [] => None
      end).
  { intros lo'. destruct s as [|a s']; [reflexivity|]. cbn [run].
    destruct (p a); [|reflexivity].
    rewrite decide_True by (cbn; lia). apply IH. cbn in Hlen. lia. }
  destruct s as [|a s']; destruct lo as [|lo]; cbn [rep_loop rep_chr fmap option_fmap option_map];
    rewrite ?Hmore; reflexivity.
Qed.

Lemma run_rep_chr {R} n p g lo s c (k : str -> caps -> option R) :
  run n (Rep g lo None (Chr p)) s c k = rep_chr p g k lo s c.
Proof. apply (rep_loop_chr n). lia. Qed.

Lemma orelse_some {R} (x : R) y : orelse (Some x) y = Some x.
Proof. reflexivity. Qed.

Lemma rep_chr_stop {R} p g (k : str -> caps -> option R) s c :
  starts p s = false -> rep_chr p g k 0 s c = k s c.
Proof.
  destruct s as [|a s]; cbn; intros H; rewrite ?H;
    destruct g, (k _ c); reflexivity.
Qed.

(** A greedy repetition first runs over the whole run of the class; what
    is found behind it wins. *)
Lemma rep_chr_greedy_app {R} p (k : str -> caps -> option R) w rest lo c x :
  forallb p w = true -> (lo <= length w)%nat ->
  rep_chr p true k 0 rest c = Some x ->
  rep_chr p true k lo (w ++ rest) c = Some x.
Proof.
  revert lo. induction w as [|a w IH]; intros lo Hw Hlo Hrest.
  - cbn in Hlo. replace lo with 0%nat by lia. exact Hrest.
  - cbn in Hw. apply andb_prop in Hw as [Ha Hw]. cbn in Hlo.
    cbn [app rep_chr]. rewrite Ha. destruct lo as [|lo].
    + rewrite (IH 0%nat) by (auto; lia). reflexivity.
    + apply IH; auto; lia.
Qed.

Lemma rep_chr_greedy_max {R} p (k : str -> caps -> option R) w rest lo c x :
  forallb p w = true -> (lo <= length w)%nat -> starts p rest = false ->
  k rest c = Some x ->
  rep_chr p true k lo (w ++ rest) c = Some x.
Proof.
  intros Hw Hlo Hstop Hk. apply rep_chr_greedy_app; auto.
  rewrite rep_chr_stop; auto.
Qed.

(** Whatever a repetition of a class returns, its continuation returned
    behind some run of the class that is long enough. *)
Lemma rep_chr_sound {R} p g (k : str -> caps -> option R) lo s c x :
  rep_chr p g k lo s c = Some x ->
  exists w rest, s = w ++ rest /\ forallb p w = true /\ (lo <= length w)%nat
                 /\ k rest c = Some x.
Proof.
  revert lo. induction s as [|a s IH]; intros lo H.
  - destruct lo; cbn in H.
    + exists [], []. destruct g, (k [] c); cbn in H; try discriminate; auto.
    + discriminate.
  - assert (Hmore : forall lo',
      (if p a then rep_chr p g k lo' s c else None) = Some x ->
      exists w rest, a :: s = w ++ rest /\ forallb p w = true
                     /\ (S lo' <= length w)%nat /\ k rest c = Some x).
    { intros lo' Hm. destruct (p a) eqn:Ha; [|discriminate].
      destruct (IH _ Hm) as (w & rest & -> & Hw & Hlo & Hk).
      exists (a :: w), rest. cbn. rewrite Ha, Hw. repeat split; auto; lia. }
    destruct lo as [|lo]; cbn [rep_chr] in H.
    + assert (Hk : k (a :: s) c = Some x ->
        exists w rest, a :: s = w ++ rest /\ forallb p w = true
                       /\ (0 <= length w)%nat /\ k rest c = Some x).
      { intros Hk. exists [], (a :: s). cbn. repeat split; auto. }
      destruct g; unfold orelse in H.
      * destruct (if p a then rep_chr p true k 0 s c else None) eqn:Hm.
        -- rewrite H in Hm. destruct (Hmore _ Hm) as (w & rest & ? & ? & ? & ?).
           exists w, rest. repeat split; auto; lia.
        -- auto.
      * destruct (k (a :: s) c) eqn:Hk'.
        -- apply Hk. congruence.
        -- destruct (Hmore _ H) as (w & rest & ? & ? & ? & ?).
           exists w, rest. repeat split; auto; lia.
    + apply Hmore, H.
Qed.

(** A lazy repetition stops at the first place where what follows
    succeeds. *)
Lemma rep_chr_lazy_first {R} p (k : str -> caps -> option R) u rest c x :
  forallb p u = true ->
  (forall u1 u2, u = u1 ++ u2 -> u2 <> [] -> k (u2 ++ rest) c = None) ->
  k rest c = Some x ->
  rep_chr p false k 0 (u ++ rest) c = Some x.
Proof.
  induction u as [|a u IH]; intros Hu Hfail Hk.
  - cbn [app]. destruct rest; cbn [rep_chr]; rewrite Hk; reflexivity.
  - cbn in Hu. apply andb_prop in Hu as [Ha Hu]. cbn [app rep_chr].
    assert (H0 := Hfail [] (a :: u) eq_refl ltac:(discriminate)).
    cbn [app] in H0. rewrite H0. cbn [orelse]. rewrite Ha. apply IH; auto.
    intros u1 u2 -> Hne. apply (Hfail (a :: u1) u2); auto.
Qed.

Lemma rep_chr_lazy_plus {R} p (k : str -> caps -> option R) a u rest c x :
  forallb p (a :: u) = true ->
  (forall u1 u2, u = u1 ++ u2 -> u2 <> [] -> k (u2 ++ rest) c = None) ->
  k rest c = Some x ->
  rep_chr p false k 1 (a :: u ++ rest) c = Some x.
Proof.
  intros Hu Hfail Hk. cbn in Hu. apply andb_prop in Hu as [Ha Hu].
  cbn [rep_chr]. rewrite Ha. apply rep_chr_lazy_first; auto.
Qed.

Lemma rep_chr_must_start {R} p g (k : str -> caps -> option R) lo s c :
  starts p s = false -> rep_chr p g k (S lo) s c = None.
Proof. destruct s as [|a s]; cbn; intros H; rewrite ?H; reflexivity. Qed.

(** ** Skipping a run of a class *)

Lemma lstrip_skip s : lstrip s = skip is_space s.
Proof. induction s as [|a s IH]; cbn; [|rewrite IH]; reflexivity. Qed.

Lemma skip_app_all p w rest :
  forallb p w = true -> starts p rest = false -> skip p (w ++ rest) = rest.
Proof.
  intros Hw Hrest. induction w as [|a w IH]; cbn in *.
  - destruct rest as [|b rest]; cbn in *; rewrite ?Hrest; reflexivity.
  - apply andb_prop in Hw as [-> Hw]. auto.
Qed.

Lemma skip_keeps p a b c :
  p b = false -> exists a', skip p (a ++ b :: c) = a' ++ b :: c.
Proof.
  intros Hb. induction a as [|x a IH]; cbn.
  - exists []. rewrite Hb. reflexivity.
  - destruct (p x); [exact IH|]. exists (x :: a). reflexivity.
Qed.

Lemma skip_length p s : (length (skip p s) <= length s)%nat.
Proof. induction s as [|a s IH]; cbn; [lia|]. destruct (p a); cbn; lia. Qed.

Lemma at_end_long a b c d : at_end (a ++ b :: c :: d) = false.
Proof. destruct a as [|x [|y a]]; reflexivity. Qed.

(** ** The end of a contents line: blanks, the page number, the end *)

Lemma run_cat {R} n r1 r2 s c (k : str -> caps -> option R) :
  run n (r1 · r2)%re s c k = run n r1 s c (fun s' c' => run n r2 s' c' k).
Proof. reflexivity. Qed.

Lemma run_grp {R} n i r s c (k : str -> caps -> option R) :
  run n (Grp i r) s c k
  = run n r s c (fun s' c' => k s' (<[i := take (length s - length s') s]> c')).
Proof. reflexivity. Qed.

Lemma run_chr {R} n p a s c (k : str -> caps -> option R) :
  run n (Chr p) (a :: s) c k = if p a then k s c else None.
Proof. reflexivity. Qed.

Lemma run_eol {R} n s c (k : str -> caps -> option R) :
  run n Eol s c k = if at_end s then k s c else None.
Proof. reflexivity. Qed.

Lemma take_prefix (w rest : str) :
  take (length (w ++ rest) - length rest) (w ++ rest) = w.
Proof.
  rewrite length_app. replace (length w + length rest - length rest)%nat
    with (length w) by lia.
  apply take_app_length.
Qed.

Lemma starts_digit_not_space s :
  s <> [] -> forallb is_digit s = true -> starts is_space s = false.
Proof.
  destruct s as [|a s]; [congruence|]. cbn. intros _ H.
  apply andb_prop in H as [H _]. apply digit_not_space, H.
Qed.

Lemma tail_match n ws page c :
  ws <> [] -> forallb is_space ws = true ->
  page <> [] -> forallb is_digit page = true ->
  run n TAIL_PATTERN (ws ++ page) c (fun _ c' => Some c')
  = Some (<[3%nat := page]> c).
Proof.
  intros Hws1 Hws Hp1 Hp. unfold TAIL_PATTERN, plus.
  rewrite run_cat, run_rep_chr. apply rep_chr_greedy_max; auto.
  - destruct ws; [congruence|cbn; lia].
  - apply starts_digit_not_space; auto.
  - rewrite run_cat, run_grp, run_rep_chr.
    rewrite <- (app_nil_r page) at 1.
    apply rep_chr_greedy_max; auto.
    + destruct page; [congruence|cbn; lia].
    + rewrite run_eol. cbn [at_end length]. rewrite Nat.sub_0_r, firstn_all.
      reflexivity.
Qed.

Lemma tail_sound {R} n s c (k : str -> caps -> option R) x :
  run n TAIL_PATTERN s c k = Some x ->
  at_end (skip is_digit (skip is_space s)) = true.
Proof.
  unfold TAIL_PATTERN, plus. rewrite run_cat, run_rep_chr. intros H.
  apply rep_chr_sound in H as (ws & s1 & -> & Hws & _ & H).
  rewrite run_cat, run_grp, run_rep_chr in H.
  apply rep_chr_sound in H as (ds & e & -> & Hds & Hlen & H).
  rewrite run_eol in H. destruct (at_end e) eqn:He; [|discriminate].
  assert (Hse : starts is_digit e = false).
  { destruct e as [|a [|b e]]; cbn in *; try discriminate; auto.
    destruct (is_digit a) eqn:Ha; auto.
    apply digit_not_newline in Ha. congruence. }
  rewrite skip_app_all; auto.
  - rewrite skip_app_all; auto.
  - destruct ds as [|d ds]; [cbn in Hlen; lia|]. cbn in *.
    apply andb_prop in Hds as [Hd _]. apply digit_not_space, Hd.
Qed.

(** Behind a character that is not a blank, and with text before the page
    number, the end of the line does not match. *)
Lemma tail_fail {R} n v z w page c (k : str -> caps -> option R) :
  is_space z = false -> page <> [] ->
  run n TAIL_PATTERN (v ++ z :: w ++ " "%char :: page) c k = None.
Proof.
  intros Hz Hp. destruct (run _ _ _ _ _) eqn:H; [|reflexivity].
  apply tail_sound in H.
  destruct (skip_keeps is_space v z (w ++ " "%char :: page) Hz) as [v' Hv].
  rewrite Hv in H.
  replace (v' ++ z :: w ++ " "%char :: page)
    with ((v' ++ z :: w) ++ " "%char :: page) in H
    by (rewrite <- app_assoc; reflexivity).
  destruct (skip_keeps is_digit (v' ++ z :: w) " "%char page eq_refl) as [v2 Hv2].
  rewrite Hv2 in H. destruct page as [|d page]; [congruence|].
  rewrite at_end_long in H. discriminate.
Qed.

(** ** Section numbers *)

Lemma is_dot_eq a : is_dot a = true -> a = "."%char.
Proof. by_cases_on_char a. Qed.

Lemma dotted_parts b s :
  dotted b s = true ->
  exists d comps, s = d ++ dot_parts comps /\ forallb is_digit d = true
                  /\ (b = false -> d <> []) /\ Forall digits comps.
Proof.
  revert b. induction s as [|a s IH]; intros b H; cbn in H.
  - subst b. exists [], []. repeat split; auto; discriminate.
  - destruct (is_digit a) eqn:Ha.
    + destruct (IH _ H) as (d & comps & -> & Hd & _ & Hc).
      exists (a :: d), comps. cbn. rewrite Ha, Hd. repeat split; auto.
    + destruct (is_dot a) eqn:Hdot; [|discriminate].
      apply andb_prop in H as [-> H].
      destruct (IH _ H) as (d & comps & -> & Hd & Hne & Hc).
      apply is_dot_eq in Hdot as ->.
      exists [], (d :: comps). cbn. repeat split; auto; try discriminate.
      constructor; auto. split; auto.
Qed.

Lemma starts_dot_parts comps rest :
  starts is_digit rest = false ->
  starts is_digit (dot_parts comps ++ rest) = false.
Proof. destruct comps; auto. Qed.

Lemma star_dot_parts_loop {R} n comps rest c (k : str -> caps -> option R) x fuel :
  Forall digits comps ->
  starts is_digit rest = false -> starts_dot_digit rest = false ->
  k rest c = Some x ->
  (length (dot_parts comps ++ rest) < fuel)%nat ->
  rep_loop (run n (Chr is_dot · plus (Chr is_digit))%re) true k fuel 0 None
           (dot_parts comps ++ rest) c = Some x.
Proof.
  intros Hc Hr1 Hr2 Hk. revert fuel.
  induction Hc as [|d comps [Hd1 Hd] Hc IH]; intros fuel Hlen;
    (destruct fuel as [|fuel]; [lia|]); cbn [rep_loop dot_parts app].
  - rewrite run_cat. destruct rest as [|a rest]; [exact Hk|].
    rewrite run_chr. cbn in Hr2. destruct (is_dot a); cbn in Hr2.
    + unfold plus. rewrite run_rep_chr, rep_chr_must_start by auto. exact Hk.
    + exact Hk.
  - rewrite run_cat, run_chr. cbn [is_dot code N_of_ascii N_of_digits N.eqb].
    change (is_dot "."%char) with true. cbn iota.
    unfold plus at 1. rewrite run_rep_chr, <- app_assoc.
    rewrite (rep_chr_greedy_max _ _ d (dot_parts comps ++ rest) 1 c x);
      [reflexivity|auto| |apply starts_dot_parts; auto|].
    + destruct d; [congruence|cbn; lia].
    + rewrite decide_True by (cbn; rewrite !length_app; lia).
      apply IH. cbn in Hlen. rewrite !length_app in *. lia.
Qed.

Lemma star_dot_parts {R} n comps rest c (k : str -> caps -> option R) x :
  Forall digits comps ->
  starts is_digit rest = false -> starts_dot_digit rest = false ->
  k rest c = Some x ->
  run n (star (Chr is_dot · plus (Chr is_digit)))%re (dot_parts comps ++ rest) c k
  = Some x.
Proof. intros. apply (star_dot_parts_loop n); auto. Qed.

Lemma opt_dot_skip {R} n s c (k : str -> caps -> option R) :
  starts is_dot s = false -> run n (opt (Chr is_dot)) s c k = k s c.
Proof.
  intros H. unfold opt. cbn [run rep_loop].
  destruct s as [|a s]; cbn in *; [reflexivity|]. rewrite H. reflexivity.
Qed.

Lemma opt_dot_take {R} n s c (k : str -> caps -> option R) x :
  k s c = Some x -> run n (opt (Chr is_dot)) ("."%char :: s) c k = Some x.
Proof.
  intros H. unfold opt. cbn [run rep_loop]. change (is_dot "."%char) with true.
  cbn iota. rewrite decide_True by (cbn; lia). cbn. rewrite H. reflexivity.
Qed.

(** ** Stripping blanks *)

Lemma lstrip_spec s :
  exists w, s = w ++ lstrip s /\ forallb is_space w = true
            /\ starts is_space (lstrip s) = false.
Proof.
  induction s as [|a s (w & Hs & Hw & Hst)]; cbn.
  - exists []. auto.
  - destruct (is_space a) eqn:Ha.
    + exists (a :: w). cbn. rewrite Ha, Hw, <- Hs. auto.
    + exists []. cbn. auto.
Qed.

Lemma rstrip_spec s :
  exists w, s = rstrip s ++ w /\ forallb is_space w = true
            /\ (rstrip s = [] \/
                exists r z, rstrip s = r ++ [z] /\ is_space z = false).
Proof.
  induction s as [|a s (w & Hs & Hw & Hr)]; cbn.
  - exists []. auto.
  - destruct (rstrip s) as [|b r] eqn:Hrs.
    + cbn in Hs. subst w. destruct (is_space a) eqn:Ha.
      * exists (a :: s). cbn. rewrite Ha, Hw. auto.
      * exists s. split; [reflexivity|]. split; [exact Hw|].
        right. exists [], a. auto.
    + exists w. split; [rewrite Hs at 1; reflexivity|]. split; [exact Hw|].
      right. destruct Hr as [Hr|(r' & z & Hr & Hz)]; [discriminate|].
      exists (a :: r'), z. rewrite Hr. auto.
Qed.

Lemma rstrip_app_space s w :
  forallb is_space w = true -> rstrip (s ++ w) = rstrip s.
Proof.
  intros Hw. assert (Hrw : rstrip w = []).
  { induction w as [|a w IH]; cbn in *; [reflexivity|].
    apply andb_prop in Hw as [Ha Hw]. rewrite IH, Ha; auto. }
  induction s as [|a s IH]; cbn; [exact Hrw|]. rewrite IH. reflexivity.
Qed.

Lemma rstrip_idem s : rstrip (rstrip s) = rstrip s.
Proof.
  destruct (rstrip_spec s) as (w & Hs & Hw & _).
  rewrite Hs at 2. symmetry. apply rstrip_app_space, Hw.
Qed.

Lemma rstrip_app_keep s r :
  rstrip r <> [] -> rstrip (s ++ r) = s ++ rstrip r.
Proof.
  intros Hr. induction s as [|a s IH]; cbn; [reflexivity|].
  rewrite IH. destruct (s ++ rstrip r) eqn:E; [|reflexivity].
  apply app_eq_nil in E as [_ E]. congruence.
Qed.

Lemma lstrip_app_space w s :
  forallb is_space w = true -> lstrip (w ++ s) = lstrip s.
Proof.
  induction w as [|a w IH]; cbn; intros Hw; [reflexivity|].
  apply andb_prop in Hw as [-> Hw]. auto.
Qed.

Lemma lstrip_all_space w : forallb is_space w = true -> lstrip w = [].
Proof.
  intros Hw. rewrite <- (app_nil_r w). rewrite lstrip_app_space; auto.
Qed.

Lemma strip_all_space w : forallb is_space w = true -> strip w = [].
Proof. intros Hw. unfold strip. rewrite lstrip_all_space; auto. Qed.

Lemma last_part (u u1 u2 r : str) z :
  u = u1 ++ u2 -> u2 <> [] -> u = r ++ [z] -> exists v, u2 = v ++ [z].
Proof.
  intros -> Hne Hu. destruct (exists_last Hne) as (v & y & ->).
  rewrite app_assoc in Hu. apply app_inj_tail in Hu as [_ ->]. eauto.
Qed.

(** A text is all blanks, or it is its stripped text between blanks; the
    stripped text starts and ends with a character that is not a blank. *)
Lemma strip_cases t :
  (forallb is_space t = true /\ strip t = []) \/
  exists w a u w',
    t = w ++ (a :: u) ++ w' /\ forallb is_space w = true
    /\ forallb is_space w' = true /\ is_space a = false /\ strip t = a :: u
    /\ (forall u1 u2, u = u1 ++ u2 -> u2 <> [] ->
        exists v z, u2 = v ++ [z] /\ is_space z = false).
Proof.
  destruct (lstrip_spec t) as (w & Ht & Hw & Hst).
  destruct (rstrip_spec (lstrip t)) as (w' & Hl & Hw' & Hr).
  fold (strip t) in Hl, Hr. destruct Hr as [Hr|(r & z & Hr & Hz)].
  - left. split; [|exact Hr]. rewrite Hr in Hl. cbn in Hl.
    rewrite Hl in Hst. destruct w' as [|b w'].
    + rewrite Ht, Hl, app_nil_r. exact Hw.
    + cbn in *. apply andb_prop in Hw' as [Hb _]. congruence.
  - right. destruct (strip t) as [|a u] eqn:Hs.
    { destruct r; discriminate. }
    exists w, a, u, w'. repeat split; auto.
    + rewrite Ht at 1. rewrite Hl. reflexivity.
    + rewrite Hl in Hst. exact Hst.
    + intros u1 u2 Hu Hne. destruct r as [|b r]; cbn in Hr.
      * injection Hr as -> ->. destruct u1, u2; try discriminate. congruence.
      * injection Hr as -> Hu'. destruct (last_part u u1 u2 r z Hu Hne Hu') as [v ->].
        eauto.
Qed.

Lemma strip_idem t : strip (strip t) = strip t.
Proof.
  destruct (strip_cases t) as [[_ ->]|(w & a & u & w' & _ & _ & _ & Ha & Hs & _)];
    [reflexivity|].
  rewrite Hs. unfold strip at 1. cbn [lstrip]. rewrite Ha, <- Hs.
  apply rstrip_idem.
Qed.

Lemma strip_between w t w' :
  forallb is_space w = true -> forallb is_space w' = true ->
  strip (w ++ t ++ w') = strip t.
Proof.
  intros Hw Hw'. unfold strip. rewrite lstrip_app_space by auto.
  destruct (lstrip_spec t) as (v & Ht & Hv & Hst).
  rewrite Ht at 1. rewrite <- app_assoc, lstrip_app_space by auto.
  destruct (lstrip t) as [|a s] eqn:Hl.
  - cbn. rewrite lstrip_all_space; auto.
  - cbn in Hst. cbn [app lstrip]. rewrite Hst.
    change (a :: s ++ w') with ((a :: s) ++ w').
    apply rstrip_app_space, Hw'.
Qed.

(** ** Matching a contents line *)

Lemma run_bol {R} n s c (k : str -> caps -> option R) :
  length s = n -> run n Bol s c k = k s c.
Proof. intros H. cbn [run]. rewrite decide_True; auto. Qed.

Ltac list_norm := repeat (progress (cbn [app]; rewrite <- ?app_assoc)).

Lemma take_prefix_eq (s w rest : str) :
  s = w ++ rest -> take (length s - length rest) s = w.
Proof. intros ->. apply take_prefix. Qed.

Lemma forallb_digit_any s : forallb is_digit s = true -> forallb is_any s = true.
Proof.
  induction s as [|d s IH]; cbn; [reflexivity|]. intros H.
  apply andb_prop in H as [Hd H]. rewrite IH by auto.
  unfold is_any. rewrite digit_not_newline; auto.
Qed.

(** No blank, no end of line. *)
Lemma tail_fail_digits {R} n s c (k : str -> caps -> option R) :
  starts is_space s = false -> run n TAIL_PATTERN s c k = None.
Proof.
  intros Hs. unfold TAIL_PATTERN, plus. rewrite run_cat, run_rep_chr.
  apply rep_chr_must_start, Hs.
Qed.

(** The title and the end of the line do not match a text without blanks
    behind its first character. *)
Lemma title_fail {R} n a s c (k : str -> caps -> option R) :
  forallb is_digit s = true -> run n TITLE_PATTERN (a :: s) c k = None.
Proof.
  intros Hs. destruct (run _ _ _ _ _) eqn:H; [|reflexivity].
  unfold TITLE_PATTERN, lazy_plus in H. rewrite run_cat, run_grp, run_rep_chr in H.
  apply rep_chr_sound in H as (v & t & Hv & _ & Hlen & H).
  destruct v as [|b v]; [cbn in Hlen; lia|]. injection Hv as -> ->.
  rewrite forallb_app in Hs. apply andb_prop in Hs as [_ Hs].
  rewrite tail_fail_digits in H; [discriminate|].
  destruct t as [|d t]; [reflexivity|]. cbn in *.
  apply andb_prop in Hs as [Hd _]. apply digit_not_space, Hd.
Qed.

Lemma title_fail_nil {R} n c (k : str -> caps -> option R) :
  run n TITLE_PATTERN [] c k = None.
Proof. reflexivity. Qed.

Lemma body_match n title page c :
  title <> [] -> forallb is_any title = true ->
  page <> [] -> forallb is_digit page = true ->
  exists g2,
    run n BODY_PATTERN (" "%char :: title ++ " "%char :: page) c
        (fun _ c' => Some c')
    = Some (<[3%nat := page]> (<[2%nat := g2]> c))
    /\ strip g2 = strip title.
Proof.
  intros Ht1 Ht Hp1 Hp. unfold BODY_PATTERN.
  fold TITLE_PATTERN. rewrite run_cat. unfold plus at 1. rewrite run_rep_chr.
  destruct (strip_cases title)
    as [[Hsp Hs]|(w & a & u & w' & Htitle & Hw & Hw' & Ha & Hs & Hlast)].
  - (* a title of blanks: the match gives its last blank to the title *)
    destruct (exists_last Ht1) as (u & w1 & ->).
    rewrite forallb_app in Hsp, Ht. cbn in Hsp, Ht.
    apply andb_prop in Hsp as [Hu Hw1]. apply andb_prop in Hw1 as [Hw1 _].
    apply andb_prop in Ht as [_ Hw1']. apply andb_prop in Hw1' as [Hw1' _].
    exists [w1]. split; [|rewrite Hs; apply strip_all_space; cbn; rewrite Hw1; auto].
    assert (Hnd : starts is_space page = false)
      by (apply starts_digit_not_space; auto).
    replace (" "%char :: (u ++ [w1]) ++ " "%char :: page)
      with ((" "%char :: u) ++ w1 :: " "%char :: page)
      by (cbn; rewrite <- app_assoc; reflexivity).
    apply rep_chr_greedy_app; [cbn; exact Hu|cbn; lia|].
    cbn [rep_chr]. rewrite Hw1. change (is_space " "%char) with true. cbn iota.
    rewrite (rep_chr_stop _ _ _ page) by auto.
    (* behind all the blanks, and behind all but one, nothing matches *)
    destruct page as [|d page]; [congruence|]. cbn in Hp.
    pose proof Hp as Hp'. apply andb_prop in Hp' as [_ Hpage].
    rewrite (title_fail n d page) by auto.
    rewrite (title_fail n " "%char (d :: page)) by auto.
    cbn [orelse].
    (* behind all but two, the title is one blank *)
    unfold TITLE_PATTERN, lazy_plus. rewrite run_cat, run_grp, run_rep_chr.
    change (w1 :: " "%char :: d :: page)
      with (w1 :: [] ++ [" "%char] ++ d :: page).
    apply rep_chr_lazy_plus; [cbn; rewrite Hw1'; reflexivity| |].
    + intros u1 u2 Hnil Hne. destruct u1, u2; try discriminate. congruence.
    + rewrite tail_match by (auto; discriminate).
      rewrite (take_prefix_eq _ [w1] ([" "%char] ++ d :: page)); reflexivity.
  - (* the title proper starts at [a]: the blanks before it are skipped *)
    exists (a :: u). split; [|rewrite Hs; unfold strip at 1; cbn [lstrip];
      rewrite Ha, <- Hs; apply rstrip_idem].
    subst title. rewrite !forallb_app in Ht.
    apply andb_prop in Ht as [_ Ht]. apply andb_prop in Ht as [Hau _].
    replace (" "%char :: (w ++ (a :: u) ++ w') ++ " "%char :: page)
      with ((" "%char :: w) ++ a :: u ++ (w' ++ [" "%char]) ++ page)
      by (list_norm; reflexivity).
    apply rep_chr_greedy_max; [cbn; exact Hw|cbn; lia|cbn; exact Ha|].
    unfold TITLE_PATTERN, lazy_plus. rewrite run_cat, run_grp, run_rep_chr.
    apply rep_chr_lazy_plus; [exact Hau| |].
    + intros u1 u2 Hu Hne. destruct (Hlast u1 u2 Hu Hne) as (v & z & -> & Hz).
      replace ((v ++ [z]) ++ (w' ++ [" "%char]) ++ page)
        with (v ++ z :: w' ++ " "%char :: page)
        by (list_norm; reflexivity).
      apply tail_fail; auto.
    + rewrite tail_match; auto.
      * rewrite (take_prefix_eq _ (a :: u) ((w' ++ [" "%char]) ++ page));
          reflexivity.
      * destruct w'; discriminate.
      * rewrite forallb_app, Hw'. reflexivity.
Qed.

Lemma toc_match nums od title page :
  is_section_number nums = true -> od = [] \/ od = ["."%char] ->
  title <> [] -> forallb is_any title = true ->
  page <> [] -> forallb is_digit page = true ->
  exists g2,
    re_match TOC_LINE_PATTERN (nums ++ od ++ " "%char :: title ++ " "%char :: page)
    = Some (<[3%nat := page]> (<[2%nat := g2]> (<[1%nat := nums]> ∅)))
    /\ strip g2 = strip title.
Proof.
  intros Hn Hod Ht1 Ht Hp1 Hp.
  set (line := nums ++ od ++ " "%char :: title ++ " "%char :: page).
  destruct (body_match (length line) title page (<[1%nat := nums]> ∅))
    as (g2 & Hbody & Hg2); auto.
  exists g2. split; [|exact Hg2].
  apply dotted_parts in Hn as (d & comps & Hnums & Hd & Hd1 & Hc).
  specialize (Hd1 eq_refl).
  set (rest := od ++ " "%char :: title ++ " "%char :: page) in *.
  assert (Hr1 : starts is_digit rest = false) by (destruct Hod as [-> | ->]; reflexivity).
  assert (Hr2 : starts_dot_digit rest = false) by (destruct Hod as [-> | ->]; reflexivity).
  unfold re_match, TOC_LINE_PATTERN.
  change (plus (Chr is_space) · Grp 2 (lazy_plus (Chr is_any))
          · plus (Chr is_space) · Grp 3 (plus (Chr is_digit)) · Eol)%re
    with BODY_PATTERN.
  rewrite run_cat, run_bol by reflexivity.
  rewrite run_cat, run_grp, run_cat. unfold plus at 1. rewrite run_rep_chr.
  assert (Hline : line = d ++ dot_parts comps ++ rest)
    by (unfold line; rewrite Hnums, <- app_assoc; reflexivity).
  rewrite Hline at 1.
  apply rep_chr_greedy_max; auto.
  { destruct d; [congruence|cbn; lia]. }
  { apply starts_dot_parts, Hr1. }
  apply star_dot_parts; auto.
  rewrite (take_prefix_eq line nums rest) by reflexivity.
  rewrite run_cat. unfold rest. destruct Hod as [-> | ->]; cbn [app].
  - rewrite opt_dot_skip by reflexivity. exact Hbody.
  - apply opt_dot_take. exact Hbody.
Qed.

(** ** Leader dots *)

Lemma rep_chr_skip p s c :
  rep_chr p true (fun s' _ => Some s') 0 s c = Some (skip p s).
Proof.
  induction s as [|a s IH]; cbn; [reflexivity|].
  destruct (p a); [rewrite IH|]; reflexivity.
Qed.

Lemma leader_end n a s :
  match_end n LEADER_PATTERN (a :: s)
  = if is_dot a && starts is_dot s then Some (skip is_dot s) else None.
Proof.
  unfold match_end, LEADER_PATTERN. rewrite run_rep_chr.
  destruct s as [|b s]; cbn [rep_chr starts skip];
    (destruct (is_dot a); [|reflexivity]); [reflexivity|].
  destruct (is_dot b); [|reflexivity]. apply rep_chr_skip.
Qed.

Lemma sub_step fuel n a s :
  sub_loop (S fuel) n LEADER_PATTERN (a :: s)
  = if is_dot a && starts is_dot s
    then sub_loop fuel n LEADER_PATTERN (skip is_dot s)
    else a :: sub_loop fuel n LEADER_PATTERN s.
Proof.
  cbn [sub_loop]. rewrite leader_end.
  destruct (is_dot a && starts is_dot s); [|reflexivity].
  rewrite decide_True; [reflexivity|]. pose proof (skip_length is_dot s).
  cbn. lia.
Qed.

(** More fuel than the length of the text changes nothing. *)
Lemma sub_fuel f1 f2 n1 n2 s :
  (length s <= f1)%nat -> (length s <= f2)%nat ->
  sub_loop f1 n1 LEADER_PATTERN s = sub_loop f2 n2 LEADER_PATTERN s.
Proof.
  revert f2 s. induction f1 as [|f1 IH]; intros f2 s H1 H2.
  - destruct s; [|cbn in H1; lia]. destruct f2; reflexivity.
  - destruct s as [|a s]; [destruct f2; reflexivity|].
    destruct f2 as [|f2]; [cbn in H2; lia|]. cbn in H1, H2.
    rewrite !sub_step. pose proof (skip_length is_dot s).
    destruct (is_dot a && starts is_dot s); [|f_equal]; apply IH; lia.
Qed.

Lemma sub_no_runs fuel n s :
  (length s <= fuel)%nat ->
  no_runs (sub_loop fuel n LEADER_PATTERN s) = true
  /\ (starts is_dot s = false ->
      starts is_dot (sub_loop fuel n LEADER_PATTERN s) = false).
Proof.
  revert s. induction fuel as [|fuel IH]; intros s Hlen.
  - destruct s; [auto|cbn in Hlen; lia].
  - destruct s as [|a s]; [auto|]. cbn in Hlen. rewrite sub_step.
    pose proof (skip_length is_dot s).
    destruct (is_dot a && starts is_dot s) eqn:E.
    + split; [apply IH; lia|]. cbn. apply andb_prop in E as [-> _]. discriminate.
    + destruct (IH s ltac:(lia)) as [Hn Hs]. split; [|auto].
      cbn [no_runs]. rewrite Hn, andb_true_r.
      destruct (is_dot a); [|reflexivity]. cbn in E. rewrite (Hs E). reflexivity.
Qed.

Lemma sub_id fuel n s : no_runs s = true -> sub_loop fuel n LEADER_PATTERN s = s.
Proof.
  revert s. induction fuel as [|fuel IH]; intros s Hs; [reflexivity|].
  destruct s as [|a s]; [reflexivity|]. rewrite sub_step. cbn in Hs.
  apply andb_prop in Hs as [E Hs]. apply negb_true_iff in E. rewrite E.
  f_equal. auto.
Qed.

Lemma no_runs_space w : forallb is_space w = true -> no_runs w = true.
Proof.
  induction w as [|a w IH]; cbn; [reflexivity|]. intros H.
  apply andb_prop in H as [Ha H]. rewrite (space_not_dot a Ha), IH; auto.
Qed.

Lemma strip_leaders_space_front w s :
  forallb is_space w = true -> strip_leaders (w ++ s) = w ++ strip_leaders s.
Proof.
  intros Hw. unfold strip_leaders, re_sub_delete.
  induction w as [|a w IH]; [reflexivity|]. cbn in Hw.
  apply andb_prop in Hw as [Ha Hw]. cbn [app length]. rewrite sub_step.
  rewrite (space_not_dot a Ha). cbn [andb]. f_equal.
  rewrite <- (IH Hw). apply sub_fuel; lia.
Qed.

Lemma skip_app_stop p s w :
  starts p w = false -> skip p (s ++ w) = skip p s ++ w.
Proof.
  intros Hw. induction s as [|a s IH]; cbn.
  - destruct w as [|b w]; cbn in *; rewrite ?Hw; reflexivity.
  - destruct (p a); auto.
Qed.

Lemma starts_app_stop p s w :
  starts p w = false -> starts p (s ++ w) = starts p s.
Proof. destruct s; auto. Qed.

Lemma sub_space_back fuel n s w :
  forallb is_space w = true -> (length (s ++ w) <= fuel)%nat ->
  sub_loop fuel n LEADER_PATTERN (s ++ w) = sub_loop fuel n LEADER_PATTERN s ++ w.
Proof.
  intros Hw. assert (Hst : starts is_dot w = false).
  { destruct w as [|b w]; [reflexivity|]. cbn in *.
    apply andb_prop in Hw as [Hb _]. apply space_not_dot, Hb. }
  revert s. induction fuel as [|fuel IH]; intros s Hlen.
  - destruct s, w; cbn in Hlen; try lia. reflexivity.
  - destruct s as [|a s].
    + cbn [app]. rewrite sub_id by (apply no_runs_space, Hw). reflexivity.
    + cbn [app]. rewrite !sub_step, starts_app_stop, skip_app_stop by auto.
      cbn in Hlen. pose proof (skip_length is_dot s).
      destruct (is_dot a && starts is_dot s).
      * apply IH. rewrite length_app in *. lia.
      * cbn [app]. f_equal. apply IH. lia.
Qed.

Lemma strip_leaders_space_back s w :
  forallb is_space w = true -> strip_leaders (s ++ w) = strip_leaders s ++ w.
Proof.
  intros Hw. unfold strip_leaders, re_sub_delete.
  rewrite sub_space_back by auto. f_equal. apply sub_fuel; rewrite ?length_app; lia.
Qed.

(** Stripping the blanks first does not change the cleaned title. *)
Lemma clean_title_strip t :
  strip (strip_leaders (strip t)) = strip (strip_leaders t).
Proof.
  destruct (strip_cases t)
    as [[Hsp Hs]|(w & a & u & w' & Ht & Hw & Hw' & _ & Hs & _)].
  - assert (Hid : strip_leaders t = t)
      by (apply sub_id, no_runs_space, Hsp).
    rewrite Hid, Hs. reflexivity.
  - rewrite Hs. rewrite Ht at 1.
    rewrite strip_leaders_space_front, strip_leaders_space_back by auto.
    rewrite strip_between; auto.
Qed.

(** ** The line parser on lines of the expected form *)

Lemma int_digits_fold s acc :
  forallb is_digit s = true ->
  int_digits acc s = Some (fold_left (fun acc a => 10 * acc + digit_value a) s acc).
Proof.
  revert acc. induction s as [|a s IH]; intros acc H; cbn in *; [reflexivity|].
  apply andb_prop in H as [-> H]. auto.
Qed.

Lemma py_int_decimal s :
  s <> [] -> forallb is_digit s = true ->
  Z.of_nat (length s) <= int_max_str_digits ->
  py_int s = Some (decimal s).
Proof.
  intros Hne H Hlen. destruct s; [congruence|]. unfold py_int.
  apply Z.leb_le in Hlen. rewrite Hlen. apply int_digits_fold, H.
Qed.

Lemma py_int_long s :
  int_max_str_digits < Z.of_nat (length s) -> py_int s = None.
Proof.
  intros Hlen. destruct s; [reflexivity|]. unfold py_int.
  apply Z.leb_gt in Hlen. rewrite Hlen. reflexivity.
Qed.

Lemma py_int_Some s p :
  py_int s = Some p ->
  int_digits 0 s = Some p /\ Z.of_nat (length s) <= int_max_str_digits.
Proof.
  unfold py_int. destruct s; [discriminate|].
  destruct (Z.leb_spec (Z.of_nat (length (a :: s))) int_max_str_digits);
    [auto|discriminate].
Qed.

Lemma py_int_None s :
  s <> [] -> forallb is_digit s = true -> py_int s = None ->
  int_max_str_digits < Z.of_nat (length s).
Proof.
  intros Hne H Hnone.
  destruct (Z.le_gt_cases (Z.of_nat (length s)) int_max_str_digits) as [Hle|Hgt];
    [|lia].
  rewrite py_int_decimal in Hnone by assumption. discriminate.
Qed.

Lemma int_digits_nonneg s acc p : int_digits acc s = Some p -> 0 <= acc -> 0 <= p.
Proof.
  revert acc. induction s as [|a s IH]; intros acc H Hacc; cbn in H.
  - congruence.
  - destruct (is_digit a) eqn:Ha; [|discriminate].
    apply (IH _ H). pose proof (digit_value_range a Ha). lia.
Qed.

Lemma rstrip_digits s : forallb is_digit s = true -> rstrip s = s.
Proof.
  induction s as [|a s IH]; cbn; [reflexivity|]. intros H.
  apply andb_prop in H as [Ha H]. rewrite IH by auto.
  destruct s; [rewrite (digit_not_space a Ha)|]; reflexivity.
Qed.

Lemma section_number_starts nums :
  is_section_number nums = true -> starts is_space nums = false /\ nums <> [].
Proof.
  destruct nums as [|a s]; [discriminate|]. unfold is_section_number. cbn.
  destruct (is_digit a) eqn:Ha.
  - intros _. split; [apply digit_not_space, Ha|discriminate].
  - destruct (is_dot a); discriminate.
Qed.

Lemma strip_toc_line nums dot title page :
  is_section_number nums = true -> page <> [] -> forallb is_digit page = true ->
  strip (toc_line nums dot title page) = toc_line nums dot title page.
Proof.
  intros Hn Hp1 Hp. apply section_number_starts in Hn as [Hn Hn1].
  unfold strip, toc_line. destruct nums as [|a nums]; [congruence|].
  cbn in Hn. cbn [app lstrip]. rewrite Hn.
  change (a :: nums ++ ?x) with ((a :: nums) ++ x).
  rewrite !app_assoc. rewrite rstrip_app_keep; rewrite rstrip_digits; auto.
Qed.

(** What the parser makes of a line of the expected form, by what [int]
    makes of the page number. *)
Lemma parse_toc_line_shape nums dot title page :
  is_section_number nums = true ->
  title <> [] -> forallb is_any title = true ->
  page <> [] -> forallb is_digit page = true ->
  parse_toc_line (toc_line nums dot title page)
  = match py_int page with
    | None => ValueError
    | Some page_number =>
        TocLine (nums ++ txt " " ++ strip (strip_leaders (strip title)))
                (count_dots nums + 1) page_number
    end.
Proof.
  intros Hn Ht1 Ht Hp1 Hp. unfold parse_toc_line.
  rewrite strip_toc_line by auto.
  destruct (toc_match nums (if dot then txt "." else []) title page)
    as (g2 & Hm & Hg2); auto.
  { destruct dot; auto. }
  change (toc_line nums dot title page)
    with (nums ++ (if dot then txt "." else []) ++ " "%char :: title
               ++ " "%char :: page).
  rewrite Hm. unfold group.
  rewrite !lookup_insert. repeat (case_decide; try lia).
  cbn [default from_option id].
  destruct (py_int page); [|reflexivity].
  rewrite Hg2. reflexivity.
Qed.

Lemma parse_toc_line_form nums dot title page :
  is_section_number nums = true ->
  title <> [] -> forallb is_any title = true ->
  page <> [] -> forallb is_digit page = true ->
  Z.of_nat (length page) <= int_max_str_digits ->
  parse_toc_line (toc_line nums dot title page)
  = TocLine (nums ++ txt " " ++ strip (strip_leaders (strip title)))
            (count_dots nums + 1) (decimal page).
Proof.
  intros Hn Ht1 Ht Hp1 Hp Hlen.
  rewrite parse_toc_line_shape, py_int_decimal by assumption. reflexivity.
Qed.

(** A page number beyond the limit of [int] makes the parser raise. *)
Lemma parse_toc_line_long nums dot title page :
  is_section_number nums = true ->
  title <> [] -> forallb is_any title = true ->
  forallb is_digit page = true ->
  int_max_str_digits < Z.of_nat (length page) ->
  parse_toc_line (toc_line nums dot title page) = ValueError.
Proof.
  intros Hn Ht1 Ht Hp Hlen.
  assert (Hp1 : page <> []) by (intros ->; cbn in Hlen; unfold int_max_str_digits in Hlen; lia).
  rewrite parse_toc_line_shape, py_int_long by assumption. reflexivity.
Qed.

(** ** Whatever matches reaches its continuation *)

Lemma rep_loop_reaches {R}
    (body : str -> caps -> (str -> caps -> option R) -> option R) g k
    fuel lo hi s c x :
  (forall s c k' x, body s c k' = Some x -> exists s' c', k' s' c' = Some x) ->
  rep_loop body g k fuel lo hi s c = Some x ->
  exists s' c', k s' c' = Some x.
Proof.
  intros Hbody. revert lo hi s c.
  induction fuel as [|fuel IH]; intros lo hi s c H; [discriminate|].
  assert (Hagain : forall lo',
    body s c (fun s' c' =>
      if decide (length s' < length s)%nat
      then rep_loop body g k fuel lo' (Nat.pred <$> hi) s' c' else None) = Some x ->
    exists s' c', k s' c' = Some x).
  { intros lo' Ha. apply Hbody in Ha as (s' & c' & Ha).
    destruct (decide _); [|discriminate]. eapply IH, Ha. }
  cbn [rep_loop] in H. destruct lo as [|lo]; [|eauto].
  destruct hi as [[|hi]|]; [eauto| |];
    (destruct g; unfold orelse in H;
     [destruct (body _ _ _) eqn:E; [rewrite H in E|]; eauto
     |destruct (k s c) eqn:E; [rewrite H in E|]; eauto]).
Qed.

Lemma run_reaches {R} n r s c (k : str -> caps -> option R) x :
  run n r s c k = Some x -> exists s' c', k s' c' = Some x.
Proof.
  revert s c k x. induction r as [p| | |r1 IH1 r2 IH2|i r IH|g lo hi r IH];
    intros s c k x H; cbn [run] in H.
  - destruct s as [|a s]; [discriminate|]. destruct (p a); [eauto|discriminate].
  - destruct (decide _); [eauto|discriminate].
  - destruct (at_end s); [eauto|discriminate].
  - apply IH1 in H as (s1 & c1 & H). eapply IH2, H.
  - apply IH in H as (s1 & c1 & H). eauto.
  - eapply rep_loop_reaches, H. intros ? ? ? ?. apply IH.
Qed.

(** The third group of a match is a run of digits that is not empty. *)
Lemma toc_match_page s m :
  re_match TOC_LINE_PATTERN s = Some m ->
  group m 3 <> [] /\ forallb is_digit (group m 3) = true.
Proof.
  unfold re_match, TOC_LINE_PATTERN. intros H.
  do 5 (rewrite run_cat in H; apply run_reaches in H as (? & ? & H)).
  rewrite run_cat in H. apply run_reaches in H as (s3 & c3 & H).
  rewrite run_cat, run_grp in H. unfold plus in H. rewrite run_rep_chr in H.
  apply rep_chr_sound in H as (w & rest & -> & Hw & Hlen & H).
  rewrite run_eol in H. destruct (at_end rest); [|discriminate].
  injection H as <-. rewrite take_prefix. unfold group.
  rewrite lookup_insert_eq. cbn. split; [|exact Hw].
  destruct w; [cbn in Hlen; lia|discriminate].
Qed.

(** The parser raises through the limit of [int] only. *)
Lemma parse_toc_line_error text :
  parse_toc_line text = ValueError
  <-> exists m, re_match TOC_LINE_PATTERN (strip text) = Some m
                /\ int_max_str_digits < Z.of_nat (length (group m 3)).
Proof.
  unfold parse_toc_line. split.
  - destruct (re_match _ _) as [m|] eqn:Hm; [|discriminate].
    destruct (py_int (group m 3)) eqn:Hp; [discriminate|]. intros _.
    exists m. split; [reflexivity|]. apply toc_match_page in Hm as [H1 H2].
    apply py_int_None; assumption.
  - intros (m & -> & Hlen). rewrite py_int_long by exact Hlen. reflexivity.
Qed.

(** ** The fuel of a repetition is never used up *)

Lemma rep_loop_ext {R}
    (body body' : str -> caps -> (str -> caps -> option R) -> option R)
    g k k' fuel lo hi s c :
  (forall s c k1 k2, (forall s' c', k1 s' c' = k2 s' c') ->
                     body s c k1 = body' s c k2) ->
  (forall s' c', k s' c' = k' s' c') ->
  rep_loop body g k fuel lo hi s c = rep_loop body' g k' fuel lo hi s c.
Proof.
  intros Hbody Hk. revert lo hi s c.
  induction fuel as [|fuel IH]; intros lo hi s c; [reflexivity|].
  cbn [rep_loop].
  assert (Hagain : forall lo',
    body s c (fun s' c' =>
      if decide (length s' < length s)%nat
      then rep_loop body g k fuel lo' (Nat.pred <$> hi) s' c' else None)
    = body' s c (fun s' c' =>
      if decide (length s' < length s)%nat
      then rep_loop body' g k' fuel lo' (Nat.pred <$> hi) s' c' else None)).
  { intros lo'. apply Hbody. intros s' c'. destruct (decide _); auto. }
  destruct lo as [|lo]; [destruct hi as [[|hi]|]|];
    rewrite ?Hagain, ?Hk; reflexivity.
Qed.

Lemma run_ext {R} n r s c (k k' : str -> caps -> option R) :
  (forall s' c', k s' c' = k' s' c') -> run n r s c k = run n r s c k'.
Proof.
  revert s c k k'. induction r as [p| | |r1 IH1 r2 IH2|i r IH|g lo hi r IH];
    intros s c k k' Hk; cbn [run]; rewrite ?Hk; auto.
  - destruct s as [|a s]; [reflexivity|]. rewrite Hk. reflexivity.
  - apply rep_loop_ext; auto.
Qed.

(** With more fuel than the text is long, the result of a repetition
    does not depend on the fuel: the engine never fails for lack of it. *)
Lemma rep_loop_fuel {R} n r g (k : str -> caps -> option R) f1 f2 lo hi s c :
  (length s < f1)%nat -> (length s < f2)%nat ->
  rep_loop (run n r) g k f1 lo hi s c = rep_loop (run n r) g k f2 lo hi s c.
Proof.
  revert f2 lo hi s c. induction f1 as [|f1 IH]; intros f2 lo hi s c H1 H2; [lia|].
  destruct f2 as [|f2]; [lia|]. cbn [rep_loop].
  assert (Hagain : forall lo',
    run n r s c (fun s' c' =>
      if decide (length s' < length s)%nat
      then rep_loop (run n r) g k f1 lo' (Nat.pred <$> hi) s' c' else None)
    = run n r s c (fun s' c' =>
      if decide (length s' < length s)%nat
      then rep_loop (run n r) g k f2 lo' (Nat.pred <$> hi) s' c' else None)).
  { intros lo'. apply run_ext. intros s' c'.
    destruct (decide _); [|reflexivity]. apply IH; lia. }
  destruct lo as [|lo]; [destruct hi as [[|hi]|]|];
    rewrite ?Hagain; reflexivity.
Qed.

(** ** The store of the tree builder *)

Lemma atree_ind' (P : atree -> Prop) :
  (forall a ts, Forall P ts -> P (ANode a ts)) -> forall t, P t.
Proof.
  intros H. fix IH 1. intros [a ts]. apply H.
  induction ts as [|t ts IHts]; constructor; [apply IH|apply IHts].
Qed.

Lemma mapM_map_Some {A B C} (f : A -> option B) (g : C -> A) (e : C -> B) ts :
  Forall (fun t => f (g t) = Some (e t)) ts ->
  mapM f (map g ts) = Some (map e ts).
Proof.
  induction 1 as [|t ts Ht _ IH]; [reflexivity|].
  cbn. rewrite Ht. cbn. rewrite IH. reflexivity.
Qed.

Lemma dump_denotes h t d :
  denotes h t -> (height t <= d)%nat ->
  dump_node d h (addr_of t) = Some (erase h t).
Proof.
  revert d. induction t as [a ts IH] using atree_ind'; intros d Hden Hd.
  inversion Hden as [a' ts' nd Hnd Hch Hts]; subst.
  destruct d as [|d]; [cbn in Hd; lia|]. cbn [dump_node addr_of erase].
  rewrite Hnd. cbn. rewrite Hch.
  rewrite (mapM_map_Some _ _ (erase h)); [reflexivity|].
  cbn in Hd. apply Nat.succ_le_mono in Hd.
  clear Hnd Hch Hden. induction ts as [|t ts IHts]; constructor.
  - apply Forall_cons in IH as [IH _]. apply Forall_cons in Hts as [Ht _].
    apply IH; auto. cbn in Hd. lia.
  - apply Forall_cons in IH as [_ IH]. apply Forall_cons in Hts as [_ Hts].
    apply IHts; auto. cbn in Hd. lia.
Qed.

Lemma labels_erase h t :
  labels_of (erase h t) = map (label_at h) (addrs_of t).
Proof.
  induction t as [a ts IH] using atree_ind'. cbn. f_equal.
  induction IH as [|t ts Ht _ IHts]; [reflexivity|].
  cbn. rewrite map_app, Ht, IHts. reflexivity.
Qed.

Lemma height_le_size t : (height t <= length (addrs_of t))%nat.
Proof.
  induction t as [a ts IH] using atree_ind'. cbn. apply le_n_S.
  induction IH as [|t ts Ht _ IHts]; [reflexivity|].
  cbn. rewrite length_app. lia.
Qed.

Lemma denotes_extend h x t : denotes h t -> denotes (h ++ [x]) t.
Proof.
  induction t as [a ts IH] using atree_ind'. intros Hden.
  inversion Hden as [a' ts' nd Hnd Hch Hts]; subst.
  apply denotes_node with nd; [apply lookup_app_l_Some, Hnd|exact Hch|].
  clear Hnd Hch Hden. induction ts as [|t ts IHts]; constructor.
  - apply Forall_cons in IH as [IH _]. apply Forall_cons in Hts as [Ht _]. auto.
  - apply Forall_cons in IH as [_ IH]. apply Forall_cons in Hts as [_ Hts]. auto.
Qed.

Lemma addr_graft p n t : addr_of (graft p n t) = addr_of t.
Proof. destruct t; reflexivity. Qed.

Lemma denotes_leaf h x :
  Node.children x = [] -> denotes (h ++ [x]) (ANode (length h) []).
Proof.
  intros Hx. apply denotes_node with x; [|exact Hx|constructor].
  apply list_lookup_middle. reflexivity.
Qed.

Lemma denotes_graft h x p t :
  Node.children x = [] -> denotes h t ->
  denotes (alter (Node.append_child (length h)) p (h ++ [x]))
          (graft p (length h) t).
Proof.
  intros Hx. induction t as [a ts IH] using atree_ind'. intros Hden.
  inversion Hden as [a' ts' nd Hnd Hch Hts]; subst.
  assert (Hlt := lookup_lt_Some _ _ _ Hnd).
  assert (Hkids : Forall (denotes (alter (Node.append_child (length h)) p (h ++ [x])))
                         (map (graft p (length h)) ts)).
  { clear Hnd Hch Hden. induction ts as [|t ts IHts]; constructor.
    - apply Forall_cons in IH as [IH _]. apply Forall_cons in Hts as [Ht _]. auto.
    - apply Forall_cons in IH as [_ IH]. apply Forall_cons in Hts as [_ Hts]. auto. }
  cbn [graft]. destruct (decide (a = p)) as [->|Hne].
  - apply denotes_node with (Node.append_child (length h) nd).
    + rewrite list_lookup_alter_eq, (lookup_app_l_Some _ _ _ _ Hnd). reflexivity.
    + cbn. rewrite Hch, map_app, map_map. cbn. f_equal.
      apply map_ext. intros t. symmetry. apply addr_graft.
    + apply Forall_app. split; [exact Hkids|]. constructor; [|constructor].
      apply denotes_node with x; [|exact Hx|constructor].
      rewrite list_lookup_alter_ne by lia. apply list_lookup_middle. reflexivity.
  - rewrite app_nil_r. apply denotes_node with nd.
    + rewrite list_lookup_alter_ne by auto. apply lookup_app_l_Some, Hnd.
    + rewrite Hch, map_map. apply map_ext. intros t. symmetry. apply addr_graft.
    + exact Hkids.
Qed.

Lemma addrs_graft p n t :
  addrs_of (graft p n t)
  ≡ₚ addrs_of t ++ replicate (occurrences p (addrs_of t)) n.
Proof.
  induction t as [a ts IH] using atree_ind'. cbn [graft addrs_of].
  assert (Hts : flat_map addrs_of (map (graft p n) ts)
                ≡ₚ flat_map addrs_of ts
                   ++ replicate (occurrences p (flat_map addrs_of ts)) n).
  { induction IH as [|t ts Ht _ IHts]; [reflexivity|].
    cbn. rewrite Ht, IHts. unfold occurrences. rewrite count_occ_app, replicate_add.
    rewrite <- !app_assoc. apply Permutation_app_head.
    rewrite !app_assoc. apply Permutation_app_tail, Permutation_app_comm. }
  rewrite flat_map_app, Hts. unfold occurrences. cbn [count_occ].
  destruct (Nat.eq_dec a p) as [->|Hne].
  - rewrite decide_True by reflexivity. cbn [flat_map addrs_of app replicate].
    rewrite <- app_assoc. cbn.
    constructor. apply Permutation_app_head.
    symmetry. apply Permutation_cons_append.
  - rewrite decide_False by exact Hne. cbn. rewrite app_nil_r. reflexivity.
Qed.

Lemma occurrences_seq p n : (p < n)%nat -> occurrences p (seq 0 n) = 1%nat.
Proof.
  intros Hp. unfold occurrences.
  apply NoDup_count_occ'; [apply seq_NoDup|]. apply in_seq. lia.
Qed.

Lemma addrs_forest_graft p n ts :
  flat_map addrs_of ts ≡ₚ seq 0 n -> (p < n)%nat ->
  flat_map addrs_of (map (graft p n) ts) ≡ₚ seq 0 (S n).
Proof.
  intros Hperm Hp.
  assert (Hts : flat_map addrs_of (map (graft p n) ts)
                ≡ₚ flat_map addrs_of ts
                   ++ replicate (occurrences p (flat_map addrs_of ts)) n).
  { clear. induction ts as [|t ts IHts]; [reflexivity|].
    cbn. rewrite addrs_graft, IHts. unfold occurrences.
    rewrite count_occ_app, replicate_add.
    rewrite <- !app_assoc. apply Permutation_app_head.
    rewrite !app_assoc. apply Permutation_app_tail, Permutation_app_comm. }
  rewrite Hts. unfold occurrences.
  rewrite (proj1 (Permutation_count_occ Nat.eq_dec _ _) Hperm p).
  fold (occurrences p (seq 0 n)). rewrite occurrences_seq by exact Hp.
  rewrite Hperm, seq_S. reflexivity.
Qed.

(** ** The invariant of the tree builder *)

Lemma add_entry_root b entry :
  clamp_level (Entry.level entry) = 1 ->
  add_entry b entry = placed_as_root b entry.
Proof. intros H. unfold add_entry, placed_as_root. rewrite H. reflexivity. Qed.

Lemma add_entry_orphan b entry :
  last_nodes b !! (clamp_level (Entry.level entry) - 1) = None ->
  add_entry b entry = placed_as_root b entry.
Proof.
  intros H. unfold add_entry, placed_as_root. rewrite H.
  destruct (_ =? 1); reflexivity.
Qed.

Lemma add_entry_child b entry parent :
  clamp_level (Entry.level entry) <> 1 ->
  last_nodes b !! (clamp_level (Entry.level entry) - 1) = Some parent ->
  add_entry b entry = placed_under parent b entry.
Proof.
  intros Hl H. unfold add_entry, placed_under. rewrite H.
  apply Z.eqb_neq in Hl. rewrite Hl. reflexivity.
Qed.

Lemma add_entry_cases b entry :
  add_entry b entry = placed_as_root b entry
  \/ exists parent,
       last_nodes b !! (clamp_level (Entry.level entry) - 1) = Some parent
       /\ add_entry b entry = placed_under parent b entry.
Proof.
  destruct (decide (clamp_level (Entry.level entry) = 1)) as [H1|H1].
  - left. apply add_entry_root, H1.
  - destruct (last_nodes b !! (clamp_level (Entry.level entry) - 1))
      as [parent|] eqn:Hp.
    + right. exists parent. split; [reflexivity|]. apply add_entry_child; auto.
    + left. apply add_entry_orphan, Hp.
Qed.

Lemma shaped_new : shaped new_builder [].
Proof.
  repeat split; [constructor|reflexivity|].
  intros l a H. cbn in H. rewrite lookup_empty in H. discriminate.
Qed.

Lemma shaped_last_insert (m : gmap Z nat) l n :
  (forall l' a, m !! l' = Some a -> (a < n)%nat) ->
  forall l' a, <[l := n]> m !! l' = Some a -> (a < S n)%nat.
Proof.
  intros Hm l' a. rewrite lookup_insert. case_decide.
  - intros [= <-]. lia.
  - intros H'. apply Hm in H'. lia.
Qed.

Lemma shaped_root b F entry :
  shaped b F ->
  shaped (placed_as_root b entry) (F ++ [ANode (length (store b)) []]).
Proof.
  intros (Hroot & Hden & Hperm & Hlast). unfold shaped, placed_as_root. cbn.
  rewrite length_app. cbn. rewrite Nat.add_1_r. repeat split.
  - rewrite map_app, Hroot. reflexivity.
  - apply Forall_app. split.
    + eapply Forall_impl; [exact Hden|]. intros t. apply denotes_extend.
    + constructor; [|constructor]. apply denotes_leaf. reflexivity.
  - rewrite flat_map_app, Hperm, seq_S. reflexivity.
  - apply shaped_last_insert, Hlast.
Qed.

Lemma shaped_under parent b F entry :
  shaped b F -> (parent < length (store b))%nat ->
  shaped (placed_under parent b entry)
         (map (graft parent (length (store b))) F).
Proof.
  intros (Hroot & Hden & Hperm & Hlast) Hp. unfold shaped, placed_under. cbn.
  rewrite length_alter, length_app. cbn. rewrite Nat.add_1_r. repeat split.
  - rewrite map_map, <- Hroot. apply map_ext. intros t. apply addr_graft.
  - apply Forall_map. eapply Forall_impl; [exact Hden|].
    intros t. apply denotes_graft. reflexivity.
  - apply addrs_forest_graft; auto.
  - apply shaped_last_insert, Hlast.
Qed.

Lemma shaped_add_entry b F entry :
  shaped b F -> exists F', shaped (add_entry b entry) F'.
Proof.
  intros Hb. destruct (add_entry_cases b entry) as [->|(parent & Hp & ->)].
  - eexists. apply shaped_root, Hb.
  - eexists. apply shaped_under; [exact Hb|].
    destruct Hb as (_ & _ & _ & Hlast). eapply Hlast, Hp.
Qed.

Lemma build_snoc entries entry :
  build_bookmark_tree (entries ++ [entry])
  = add_entry (build_bookmark_tree entries) entry.
Proof. unfold build_bookmark_tree. apply foldl_snoc. Qed.

Lemma build_shaped entries : exists F, shaped (build_bookmark_tree entries) F.
Proof.
  induction entries as [|entry entries IH] using rev_ind.
  - exists []. apply shaped_new.
  - rewrite build_snoc. destruct IH as [F HF]. eapply shaped_add_entry, HF.
Qed.

(** The tree builder returns a tree that [json.dump] can write. *)
Lemma dump_shaped b F :
  shaped b F -> dump_tree b = Some (map (erase (store b)) F).
Proof.
  intros (Hroot & Hden & Hperm & _). unfold dump_tree. rewrite <- Hroot.
  apply mapM_map_Some. apply Forall_forall. intros t Ht.
  apply dump_denotes; [eapply Forall_forall in Hden; eauto|].
  etransitivity; [apply height_le_size|].
  apply Permutation_length in Hperm. rewrite length_seq in Hperm.
  rewrite <- Hperm. clear -Ht. induction F as [|t' F IH]; [inversion Ht|].
  cbn. rewrite length_app. apply elem_of_cons in Ht as [->|Ht]; [lia|].
  specialize (IH Ht). lia.
Qed.

(** ** What the store holds *)

Lemma map_alter_invariant {A B} (f : A -> B) (g : A -> A) i (l : list A) :
  (forall x, f (g x) = f x) -> map f (alter g i l) = map f l.
Proof.
  intros Hfg. revert i. induction l as [|x l IH]; intros [|i]; cbn;
    rewrite ?Hfg, ?IH; reflexivity.
Qed.

Lemma store_add_entry b entry :
  map node_label (store (add_entry b entry))
  = map node_label (store b) ++ [node_label (new_node entry)].
Proof.
  destruct (add_entry_cases b entry) as [->|(parent & _ & ->)]; cbn.
  - apply map_app.
  - rewrite map_alter_invariant by reflexivity. apply map_app.
Qed.

Lemma store_labels entries :
  map node_label (store (build_bookmark_tree entries))
  = map (fun entry => node_label (new_node entry)) entries.
Proof.
  induction entries as [|entry entries IH] using rev_ind; [reflexivity|].
  rewrite build_snoc, store_add_entry, IH, map_app. reflexivity.
Qed.

Lemma store_length entries :
  length (store (build_bookmark_tree entries)) = length entries.
Proof.
  rewrite <- (length_map node_label), store_labels. apply length_map.
Qed.

Lemma label_at_all h : map (label_at h) (seq 0 (length h)) = map node_label h.
Proof.
  induction h as [|x h IH] using rev_ind; [reflexivity|].
  rewrite length_app. cbn [length]. rewrite Nat.add_1_r, seq_S, !map_app, <- IH.
  cbn. f_equal.
  - apply map_ext_in. intros a Ha. apply in_seq in Ha. unfold label_at.
    rewrite lookup_app_l by lia. reflexivity.
  - unfold label_at. rewrite list_lookup_middle by reflexivity. reflexivity.
Qed.

Lemma labels_forest h F :
  flat_map labels_of (map (erase h) F) = map (label_at h) (flat_map addrs_of F).
Proof.
  induction F as [|t F IH]; [reflexivity|].
  cbn. rewrite map_app, labels_erase, IH. reflexivity.
Qed.

Lemma labels_shaped b F :
  shaped b F ->
  flat_map labels_of (map (erase (store b)) F) ≡ₚ map node_label (store b).
Proof.
  intros (_ & _ & Hperm & _). rewrite labels_forest, <- label_at_all.
  apply Permutation_map, Hperm.
Qed.

Lemma erase_extend h x t : denotes h t -> erase (h ++ [x]) t = erase h t.
Proof.
  induction t as [a ts IH] using atree_ind'. intros Hden.
  inversion Hden as [a' ts' nd Hnd Hch Hts]; subst. cbn.
  rewrite (lookup_app_l_Some _ _ _ _ Hnd), Hnd. f_equal.
  clear Hnd Hch Hden. induction ts as [|t ts IHts]; [reflexivity|].
  apply Forall_cons in IH as [IHt IH]. apply Forall_cons in Hts as [Ht Hts].
  cbn. rewrite IHt, IHts; auto.
Qed.

(** An entry that is placed as a root becomes the last tree of the
    forest, and a leaf. *)
Lemma dump_placed_as_root b F entry :
  shaped b F ->
  dump_tree (placed_as_root b entry)
  = Some (map (erase (store b)) F ++ [bookmark_of entry []]).
Proof.
  intros Hb. rewrite (dump_shaped _ _ (shaped_root b F entry Hb)).
  cbn [store placed_as_root]. rewrite map_app. f_equal. f_equal.
  - destruct Hb as (_ & Hden & _ & _). clear -Hden.
    induction Hden as [|t F Ht _ IH]; [reflexivity|].
    cbn. rewrite IH, erase_extend; auto.
  - cbn. rewrite list_lookup_middle by reflexivity. reflexivity.
Qed.

(** ** The projector *)

Lemma bookmark_ind' (P : bookmark -> Prop) :
  (forall title dest color bold italic children,
      Forall P children -> P (Bookmark title dest color bold italic children)) ->
  forall node, P node.
Proof.
  intros H. fix IH 1. intros [title dest color bold italic children]. apply H.
  induction children as [|c cs IHcs]; constructor; [apply IH|apply IHcs].
Qed.

Lemma for_each_outline total depth forest :
  Forall (fun node => forall toc_list parent_level,
    toc_of_node total parent_level node toc_list
    = if page_is_number node
      then Some (toc_list ++ map (record_of total)
                                 (nodes_with_depth (parent_level + 1) node))
      else None) forest ->
  forall toc_list,
    for_each (toc_of_node total depth) forest toc_list
    = if forallb page_is_number forest
      then Some (toc_list ++ map (record_of total)
                                 (flat_map (nodes_with_depth (depth + 1)) forest))
      else None.
Proof.
  induction 1 as [|node forest Hnode _ IH]; intros toc_list.
  - cbn. rewrite app_nil_r. reflexivity.
  - cbn [for_each forallb flat_map]. rewrite Hnode.
    destruct (page_is_number node); [|reflexivity]. cbn.
    rewrite IH. destruct (forallb page_is_number forest); [|reflexivity].
    rewrite map_app, app_assoc. reflexivity.
Qed.

Lemma toc_of_node_outline total node toc_list parent_level :
  toc_of_node total parent_level node toc_list
  = if page_is_number node
    then Some (toc_list ++ map (record_of total)
                               (nodes_with_depth (parent_level + 1) node))
    else None.
Proof.
  revert toc_list parent_level.
  induction node as [title dest color bold italic children IH] using bookmark_ind'.
  intros toc_list parent_level. cbn [toc_of_node page_is_number].
  destruct (dest_page dest) as [page|] eqn:Hpage; [|reflexivity]. cbn.
  rewrite (for_each_outline total (parent_level + 1) children IH).
  destruct (forallb page_is_number children); [|reflexivity].
  cbn [nodes_with_depth map]. rewrite <- app_assoc. cbn [app].
  do 3 f_equal. unfold record_of, clamp_page. cbn. do 2 f_equal.
  destruct dest as [[|[p|s] dest]|]; cbn in Hpage; congruence.
Qed.

(** The projector runs through the nodes in pre-order, unless a page is a
    string. *)
Lemma tree_to_toc_outline total forest toc_list parent_level :
  tree_to_toc total forest toc_list parent_level
  = if forallb page_is_number forest
    then Some (toc_list ++ map (record_of total)
                 (flat_map (nodes_with_depth (parent_level + 1)) forest))
    else None.
Proof.
  apply for_each_outline. apply Forall_forall. intros node _ ? ?.
  apply toc_of_node_outline.
Qed.

Lemma nodes_depth_ge depth node :
  Forall (fun dn => depth <= dn.1) (nodes_with_depth depth node).
Proof.
  revert depth.
  induction node as [title dest color bold italic children IH] using bookmark_ind'.
  intros depth. cbn [nodes_with_depth]. constructor; [cbn; lia|].
  induction IH as [|c cs Hc _ IHcs]; [constructor|].
  cbn. apply Forall_app. split; [|exact IHcs].
  eapply Forall_impl; [apply Hc|]. cbn. intros; lia.
Qed.

Lemma forest_depth_ge forest : Forall (fun dn => 1 <= dn.1) (forest_nodes forest).
Proof.
  unfold forest_nodes. induction forest as [|node forest IH]; [constructor|].
  cbn. apply Forall_app. split; [apply nodes_depth_ge|exact IH].
Qed.

Lemma clamp_page_range total page :
  1 <= total -> 1 <= clamp_page total page <= total.
Proof. unfold clamp_page. lia. Qed.

(** * The line parser: lines of the expected form *)

(** C1, as the code has it: for every line made of a section number (runs
    of digits separated by single dots, with or without a dot behind
    them), a blank, a title that is not empty and holds no line feed, a
    blank and a page number (a run of digits, no more than [int]
    converts), [parse_toc_line] returns the section number, a blank and
    the title without its leader dots and surrounding blanks; the number
    of dots of the section number plus one; and the page number as an
    integer. *)
Theorem parse_toc_line_valid nums trailing_dot title page :
  is_section_number nums = true ->
  title <> [] -> forallb is_any title = true ->
  page <> [] -> forallb is_digit page = true ->
  Z.of_nat (length page) <= int_max_str_digits ->
  parse_toc_line (toc_line nums trailing_dot title page)
  = TocLine (nums ++ txt " " ++ strip (strip_leaders title))
            (count_dots nums + 1) (decimal page).
Proof.
  intros Hnums Htitle Hline Hpage Hdigits Hlimit.
  rewrite parse_toc_line_form by assumption.
  (* the blanks around the title are gone before or after the dots *)
  rewrite clean_title_strip. reflexivity.
Qed.

Lemma parse_toc_line_valid_witness :
  parse_toc_line (txt "3.4.2. Interface .... of  a section ..... 069")
  = TocLine (txt "3.4.2 Interface  of  a section") 3 69.
Proof.
  exact (parse_toc_line_valid (txt "3.4.2") true
           (txt "Interface .... of  a section .....") (txt "069")
           eq_refl ltac:(discriminate) eq_refl ltac:(discriminate) eq_refl
           ltac:(discriminate)).
Defined.

(** C1, as the claim states it, fails: the line ["1 Intro 99...9"] with a
    page number of 4301 digits has the form of the claim, and the parser
    raises on it, since [int] does. *)
Lemma long_page_raises :
  parse_toc_line (toc_line (txt "1") false (txt "Intro") long_page)
  = ValueError
  /\ ~ (forall nums trailing_dot title page,
          is_section_number nums = true ->
          title <> [] -> forallb is_any title = true ->
          page <> [] -> forallb is_digit page = true ->
          parse_toc_line (toc_line nums trailing_dot title page)
          = TocLine (nums ++ txt " " ++ strip (strip_leaders title))
                    (count_dots nums + 1) (decimal page)).
Proof.
  assert (Hdigits : forallb is_digit long_page = true).
  { unfold long_page. induction (Z.to_nat 4301) as [|n IH]; [reflexivity|exact IH]. }
  assert (Hlong : int_max_str_digits < Z.of_nat (length long_page)).
  { unfold long_page, int_max_str_digits. rewrite length_replicate. lia. }
  assert (Hraises : parse_toc_line (toc_line (txt "1") false (txt "Intro") long_page)
                    = ValueError).
  { apply parse_toc_line_long; [reflexivity|discriminate|reflexivity|assumption..]. }
  split; [exact Hraises|]. intros H.
  rewrite (H (txt "1") false (txt "Intro") long_page) in Hraises;
    [discriminate|reflexivity|discriminate|reflexivity| |exact Hdigits].
  intros E. rewrite E in Hlong. cbn in Hlong. unfold int_max_str_digits in Hlong. lia.
Qed.

(** C3, as the code has it: a title that is empty once its leader dots
    and blanks are removed is not rejected; a line of the expected form
    with such a title, and a page number of no more digits than [int]
    converts, is parsed, and its composed title is the section number
    followed by one blank. *)
Theorem parse_toc_line_empty_title nums trailing_dot title page :
  is_section_number nums = true ->
  title <> [] -> forallb is_any title = true ->
  page <> [] -> forallb is_digit page = true ->
  Z.of_nat (length page) <= int_max_str_digits ->
  strip (strip_leaders title) = [] ->
  parse_toc_line (toc_line nums trailing_dot title page)
  = TocLine (nums ++ txt " ") (count_dots nums + 1) (decimal page).
Proof.
  intros Hn Ht1 Ht Hp1 Hp Hlimit He.
  rewrite parse_toc_line_form by auto.
  rewrite clean_title_strip, He. reflexivity.
Qed.

Lemma parse_toc_line_empty_title_witness :
  parse_toc_line (txt "1. .... 5") = TocLine (txt "1 ") 1 5.
Proof.
  exact (parse_toc_line_empty_title (txt "1") true (txt "....") (txt "5")
           eq_refl ltac:(discriminate) eq_refl ltac:(discriminate) eq_refl
           ltac:(discriminate) eq_refl).
Defined.

(** C3, as the claim states it, fails: the title of ["1. .... 5"] is empty
    after cleaning, and the line is parsed all the same. *)
Lemma empty_title_not_rejected :
  strip (strip_leaders (strip (txt "...."))) = []
  /\ parse_toc_line (txt "1. .... 5") = TocLine (txt "1 ") 1 5
  /\ parse_toc_line (txt "1. .... 5") <> NotToc.
Proof.
  split; [reflexivity|]. split; [reflexivity|]. vm_compute. discriminate.
Qed.

(** C4, as the code has it: the page of a parsed line is never negative;
    it can be zero. *)
Theorem parse_toc_line_page_nonneg text full_title level page :
  parse_toc_line text = TocLine full_title level page -> 0 <= page.
Proof.
  unfold parse_toc_line. destruct (re_match _ _) as [m|]; [|discriminate].
  destruct (py_int (group m 3)) as [p|] eqn:Hp; [|discriminate].
  intros [= _ _ <-]. apply py_int_Some in Hp as [Hp _].
  apply (int_digits_nonneg _ _ _ Hp). lia.
Qed.

Lemma parse_toc_line_page_nonneg_witness :
  parse_toc_line (txt "1 Intro 0") = TocLine (txt "1 Intro") 1 0 /\ 0 <= 0.
Proof.
  split; [reflexivity|].
  exact (parse_toc_line_page_nonneg (txt "1 Intro 0") (txt "1 Intro") 1 0 eq_refl).
Defined.

(** C4, as the claim states it, fails: ["1 Intro 0"] is parsed, with the
    page 0. *)
Lemma page_zero_is_parsed :
  parse_toc_line (txt "1 Intro 0") = TocLine (txt "1 Intro") 1 0
  /\ ~ (forall text full_title level page,
          parse_toc_line text = TocLine full_title level page -> 1 <= page).
Proof.
  split; [reflexivity|]. intros H.
  specialize (H (txt "1 Intro 0") (txt "1 Intro") 1 0 eq_refl). lia.
Qed.

(** C8: removing the leader dots of a text from which they have been
    removed changes nothing. *)
Theorem strip_leaders_idempotent s :
  strip_leaders (strip_leaders s) = strip_leaders s.
Proof.
  unfold strip_leaders at 1. unfold re_sub_delete. apply sub_id.
  apply sub_no_runs. reflexivity.
Qed.

(** * The tree builder *)

(** C5: an entry below level 1 whose parent level holds no node yet is
    appended to the roots, as a leaf, behind the trees built so far, and
    the builder goes on; the single line ["2.1 Sub 4"] gives a forest of
    one root, titled ["2.1 Sub"]. *)
Theorem orphan_is_root entries entry :
  1 < clamp_level (Entry.level entry) ->
  last_nodes (build_bookmark_tree entries)
    !! (clamp_level (Entry.level entry) - 1) = None ->
  (exists forest,
      dump_tree (build_bookmark_tree entries) = Some forest
      /\ dump_tree (build_bookmark_tree (entries ++ [entry]))
         = Some (forest ++ [bookmark_of entry []]))
  /\ root (build_bookmark_tree (entries ++ [entry]))
     = root (build_bookmark_tree entries) ++ [length entries]
  /\ extract_toc_entries [txt "2.1 Sub 4"] = Some [Entry.mk (txt "2.1 Sub") 2 4]
  /\ dump_tree (build_bookmark_tree [Entry.mk (txt "2.1 Sub") 2 4])
     = Some [bookmark_of (Entry.mk (txt "2.1 Sub") 2 4) []].
Proof.
  intros _ Hnone. destruct (build_shaped entries) as [F HF].
  rewrite build_snoc, (add_entry_orphan _ _ Hnone). repeat split.
  - exists (map (erase (store (build_bookmark_tree entries))) F). split.
    + apply dump_shaped, HF.
    + apply dump_placed_as_root, HF.
  - cbn. rewrite store_length. reflexivity.
Qed.

Lemma orphan_is_root_witness :
  (exists forest,
      dump_tree (build_bookmark_tree []) = Some forest
      /\ dump_tree (build_bookmark_tree ([] ++ [Entry.mk (txt "2.1 Sub") 2 4]))
         = Some (forest ++ [bookmark_of (Entry.mk (txt "2.1 Sub") 2 4) []]))
  /\ root (build_bookmark_tree ([] ++ [Entry.mk (txt "2.1 Sub") 2 4]))
     = root (build_bookmark_tree []) ++ [length (@nil Entry.t)]
  /\ extract_toc_entries [txt "2.1 Sub 4"] = Some [Entry.mk (txt "2.1 Sub") 2 4]
  /\ dump_tree (build_bookmark_tree [Entry.mk (txt "2.1 Sub") 2 4])
     = Some [bookmark_of (Entry.mk (txt "2.1 Sub") 2 4) []].
Proof.
  exact (orphan_is_root [] (Entry.mk (txt "2.1 Sub") 2 4) eq_refl eq_refl).
Defined.

(** C9: with the levels 1, 2, 1, 3 the fourth node becomes a child of the
    second node, in the tree of the first root, although the third node,
    a root, comes right before it. *)
Theorem stale_ancestor e1 e2 e3 e4 :
  clamp_level (Entry.level e1) = 1 ->
  clamp_level (Entry.level e2) = 2 ->
  clamp_level (Entry.level e3) = 1 ->
  clamp_level (Entry.level e4) = 3 ->
  dump_tree (build_bookmark_tree [e1; e2; e3; e4])
  = Some [bookmark_of e1 [bookmark_of e2 [bookmark_of e4 []]];
          bookmark_of e3 []].
Proof.
  intros H1 H2 H3 H4. unfold build_bookmark_tree. cbn [foldl].
  rewrite (add_entry_root _ e1 H1).
  rewrite (add_entry_child _ e2 0%nat);
    [|rewrite H2; discriminate
     |rewrite H2; unfold placed_as_root; cbn; rewrite H1; reflexivity].
  rewrite (add_entry_root _ e3 H3).
  rewrite (add_entry_child _ e4 1%nat);
    [|rewrite H4; discriminate
     |rewrite H4; unfold placed_as_root, placed_under; cbn;
      rewrite H1, H2, H3; reflexivity].
  reflexivity.
Qed.

Lemma stale_ancestor_witness :
  dump_tree (build_bookmark_tree
    [Entry.mk (txt "1 A") 1 1; Entry.mk (txt "1.1 B") 2 2;
     Entry.mk (txt "2 C") 1 3; Entry.mk (txt "2.1.1 D") 3 4])
  = Some [bookmark_of (Entry.mk (txt "1 A") 1 1)
            [bookmark_of (Entry.mk (txt "1.1 B") 2 2)
               [bookmark_of (Entry.mk (txt "2.1.1 D") 3 4) []]];
          bookmark_of (Entry.mk (txt "2 C") 1 3) []].
Proof.
  exact (stale_ancestor
           (Entry.mk (txt "1 A") 1 1) (Entry.mk (txt "1.1 B") 2 2)
           (Entry.mk (txt "2 C") 1 3) (Entry.mk (txt "2.1.1 D") 3 4)
           eq_refl eq_refl eq_refl eq_refl).
Defined.

Lemma store_fresh entries entry :
  store (build_bookmark_tree (entries ++ [entry])) !! length entries
  = Some (new_node entry).
Proof.
  rewrite build_snoc, <- (store_length entries).
  destruct (build_shaped entries) as (F & _ & _ & _ & Hlast).
  destruct (add_entry_cases (build_bookmark_tree entries) entry)
    as [->|(parent & Hp & ->)]; cbn.
  - apply list_lookup_middle. reflexivity.
  - apply Hlast in Hp. rewrite list_lookup_alter_ne by lia.
    apply list_lookup_middle. reflexivity.
Qed.

(** C10: the forest holds one node for each entry and no other node; a
    node shows the title of its entry, the destination made of its page
    and ["Fit"], the colour with three zeros, and is neither bold nor
    italic; a node enters the store without children. *)
Theorem build_conserves_entries entries :
  exists forest,
    dump_tree (build_bookmark_tree entries) = Some forest
    /\ flat_map labels_of forest ≡ₚ map entry_label entries
    /\ length (flat_map labels_of forest) = length entries
    /\ (forall before entry,
          store (build_bookmark_tree (before ++ [entry])) !! length before
          = Some (new_node entry))
    /\ (forall entry, Node.children (new_node entry) = []).
Proof.
  destruct (build_shaped entries) as [F HF].
  exists (map (erase (store (build_bookmark_tree entries))) F).
  assert (Hperm : flat_map labels_of
                    (map (erase (store (build_bookmark_tree entries))) F)
                  ≡ₚ map entry_label entries).
  { rewrite (labels_shaped _ _ HF), store_labels. reflexivity. }
  split; [apply dump_shaped, HF|]. split; [exact Hperm|].
  split; [rewrite Hperm; apply length_map|].
  split; [apply store_fresh|reflexivity].
Qed.

(** * The projector *)

(** C6: for every forest whose pages are numbers, the projector returns
    the records of the nodes in depth-first pre-order, children in their
    order, the roots at depth 1 and every child one deeper than its
    parent; no depth is below 1.  The depth comes from the nesting: a
    node holds no level. *)
Theorem tree_to_toc_preorder doc_len forest :
  forallb page_is_number forest = true ->
  tree_to_toc doc_len forest [] 0
  = Some (map (record_of doc_len) (forest_nodes forest))
  /\ map toc_level (map (record_of doc_len) (forest_nodes forest))
     = map fst (forest_nodes forest)
  /\ Forall (fun r => 1 <= toc_level r)
            (map (record_of doc_len) (forest_nodes forest)).
Proof.
  intros Hok. rewrite tree_to_toc_outline, Hok. split; [reflexivity|].
  split; [rewrite map_map; reflexivity|].
  apply Forall_map. eapply Forall_impl; [apply forest_depth_ge|]. auto.
Qed.

Lemma tree_to_toc_preorder_witness :
  tree_to_toc 10 example_forest [] 0 = Some example_outline
  /\ map toc_level example_outline = [1; 2; 2; 1]
  /\ Forall (fun r => 1 <= toc_level r) example_outline.
Proof. exact (tree_to_toc_preorder 10 example_forest eq_refl). Defined.

(** C7: with at least one page in the document, and pages that are
    numbers, the projector returns an outline; the page of each record is
    the declared page of its node clamped into the pages of the document,
    so it lies between 1 and the number of pages. *)
Theorem tree_to_toc_clamps doc_len forest :
  1 <= doc_len -> forallb page_is_number forest = true ->
  exists outline,
    tree_to_toc doc_len forest [] 0 = Some outline
    /\ map toc_page outline
       = map (fun dn => Z.max 1 (Z.min (declared_page dn.2) doc_len))
             (forest_nodes forest)
    /\ Forall (fun r => 1 <= toc_page r <= doc_len) outline.
Proof.
  intros Hlen Hok. exists (map (record_of doc_len) (forest_nodes forest)).
  rewrite tree_to_toc_outline, Hok. split; [reflexivity|].
  split; [rewrite map_map; reflexivity|].
  apply Forall_map, Forall_forall. intros dn _.
  apply clamp_page_range, Hlen.
Qed.

Lemma tree_to_toc_clamps_witness :
  exists outline,
    tree_to_toc 10 pages_out_of_range [] 0 = Some outline
    /\ map toc_page outline = [1; 1; 10]
    /\ Forall (fun r => 1 <= toc_page r <= 10) outline.
Proof.
  exact (tree_to_toc_clamps 10 pages_out_of_range ltac:(lia) eq_refl).
Defined.

(** * From the lines to the outline *)

(** C2: the four lines of the example give the four entries, the forest
    of two roots, the first with two children, and, for a document of ten
    pages or more, the outline of four records. *)
Theorem end_to_end_example doc_len :
  10 <= doc_len ->
  extract_toc_entries example_lines = Some example_entries
  /\ dump_tree (build_bookmark_tree example_entries) = Some example_forest
  /\ tree_to_toc doc_len example_forest [] 0 = Some example_outline.
Proof.
  intros Hlen. split; [reflexivity|]. split; [reflexivity|].
  unfold tree_to_toc, example_forest, bookmark_of. cbn.
  rewrite !Z.min_l, !Z.max_r by lia. reflexivity.
Qed.

Lemma end_to_end_example_witness :
  extract_toc_entries example_lines = Some example_entries
  /\ dump_tree (build_bookmark_tree example_entries) = Some example_forest
  /\ tree_to_toc 10 example_forest [] 0 = Some example_outline.
Proof. exact (end_to_end_example 10 ltac:(lia)). Defined.

(** * More on the line parser *)

(** ** What a match has consumed and captured *)

Lemma rep_loop_reach {R} G
    (body : str -> caps -> (str -> caps -> option R) -> option R) g k
    fuel lo hi s c x :
  reaches G body ->
  rep_loop body g k fuel lo hi s c = Some x ->
  exists w s' c', s = w ++ s' /\ k s' c' = Some x
                  /\ (forall i, i ∉ G -> c' !! i = c !! i).
Proof.
  intros Hbody. revert lo hi s c.
  induction fuel as [|fuel IH]; intros lo hi s c H; [discriminate|].
  assert (Hhere : k s c = Some x ->
    exists w s' c', s = w ++ s' /\ k s' c' = Some x
                    /\ (forall i, i ∉ G -> c' !! i = c !! i)).
  { intros Hk. exists [], s, c. auto. }
  assert (Hagain : forall lo',
    body s c (fun s' c' =>
      if decide (length s' < length s)%nat
      then rep_loop body g k fuel lo' (Nat.pred <$> hi) s' c' else None) = Some x ->
    exists w s' c', s = w ++ s' /\ k s' c' = Some x
                    /\ (forall i, i ∉ G -> c' !! i = c !! i)).
  { intros lo' Ha. apply Hbody in Ha as (w1 & s1 & c1 & -> & Ha & Hc1).
    destruct (decide _); [|discriminate].
    apply IH in Ha as (w2 & s2 & c2 & -> & Ha & Hc2).
    exists (w1 ++ w2), s2, c2. rewrite <- app_assoc. repeat split; auto.
    intros i Hi. rewrite Hc2, Hc1; auto. }
  cbn [rep_loop] in H. destruct lo as [|lo]; [|eauto].
  destruct hi as [[|hi]|]; [eauto| |];
    (destruct g; unfold orelse in H;
     [destruct (body _ _ _) eqn:E; [rewrite H in E|]; eauto
     |destruct (k s c) eqn:E; [rewrite H in E|]; eauto]).
Qed.

Lemma run_reach {R} n r : reaches (R := R) (groups_of r) (run n r).
Proof.
  induction r as [p| | |r1 IH1 r2 IH2|i r IH|g lo hi r IH];
    intros s c k x H; cbn [run groups_of] in *.
  - destruct s as [|a s]; [discriminate|]. destruct (p a); [|discriminate].
    exists [a], s, c. auto.
  - destruct (decide _); [|discriminate]. exists [], s, c. auto.
  - destruct (at_end s); [|discriminate]. exists [], s, c. auto.
  - apply IH1 in H as (w1 & s1 & c1 & -> & H & Hc1).
    apply IH2 in H as (w2 & s2 & c2 & -> & H & Hc2).
    exists (w1 ++ w2), s2, c2. rewrite <- app_assoc. repeat split; auto.
    intros i Hi. rewrite not_elem_of_app in Hi. destruct Hi.
    rewrite Hc2, Hc1; auto.
  - apply IH in H as (w1 & s1 & c1 & -> & H & Hc1).
    exists w1, s1, (<[i := take (length (w1 ++ s1) - length s1) (w1 ++ s1)]> c1).
    repeat split; auto. intros j Hj. rewrite not_elem_of_cons in Hj.
    destruct Hj. rewrite lookup_insert_ne by auto. auto.
  - eapply rep_loop_reach, H. exact IH.
Qed.

(** A section number is what the first group matches, and conversely. *)
Lemma dotted_of_parts b d comps :
  forallb is_digit d = true -> (b = false -> d <> []) -> Forall digits comps ->
  dotted b (d ++ dot_parts comps) = true.
Proof.
  intros Hd Hne Hc. revert b Hne.
  induction d as [|a d IHd]; intros b Hne.
  - destruct b; [|exfalso; apply Hne; reflexivity]. clear Hne. cbn [app].
    induction Hc as [|e comps [He1 He] _ IHc]; [reflexivity|].
    cbn [dot_parts dotted]. change (is_digit "."%char) with false.
    change (is_dot "."%char) with true. cbn iota. cbn [andb].
    destruct e as [|a e]; [congruence|]. cbn in He.
    apply andb_prop in He as [Ha He]. cbn [app dotted]. rewrite Ha.
    clear He1 Ha. induction e as [|a' e IHe]; [exact IHc|].
    cbn in He. apply andb_prop in He as [Ha' He]. cbn [app dotted].
    rewrite Ha'. auto.
  - cbn in Hd. apply andb_prop in Hd as [Ha Hd]. cbn [app dotted]. rewrite Ha.
    apply IHd; auto; discriminate.
Qed.

Lemma star_dot_parts_sound {R} n (k : str -> caps -> option R) fuel s c x :
  rep_loop (run n (Chr is_dot · plus (Chr is_digit))%re) true k fuel 0 None s c
  = Some x ->
  exists comps s', s = dot_parts comps ++ s' /\ Forall digits comps
                   /\ k s' c = Some x.
Proof.
  revert s. induction fuel as [|fuel IH]; intros s H; [discriminate|].
  cbn [rep_loop] in H. unfold orelse in H.
  destruct (run n _ s c _) as [y|] eqn:E.
  - rewrite H in E. clear H. rewrite run_cat in E.
    destruct s as [|a s]; [discriminate|]. rewrite run_chr in E.
    destruct (is_dot a) eqn:Ha; [|discriminate]. apply is_dot_eq in Ha as ->.
    unfold plus in E. rewrite run_rep_chr in E.
    apply rep_chr_sound in E as (w & s1 & -> & Hw & Hlen & E).
    destruct (decide _); [|discriminate].
    apply IH in E as (comps & s' & -> & Hc & E).
    exists (w :: comps), s'. cbn [dot_parts].
    split; [list_norm; reflexivity|]. split; [|exact E].
    constructor; auto. split; auto.
    destruct w; [cbn in Hlen; lia|discriminate].
  - exists [], s. auto.
Qed.

Lemma run_rep {R} n g lo hi r s c (k : str -> caps -> option R) :
  run n (Rep g lo hi r) s c k
  = rep_loop (run n r) g k (S (length s)) lo hi s c.
Proof. reflexivity. Qed.

(** What the groups of a match hold. *)
Lemma toc_match_groups s m :
  re_match TOC_LINE_PATTERN s = Some m ->
  exists sn rest pre page e,
    s = sn ++ rest /\ is_section_number sn = true /\ group m 1 = sn
    /\ s = pre ++ page ++ e /\ page <> [] /\ forallb is_digit page = true
    /\ group m 3 = page /\ at_end e = true.
Proof.
  unfold re_match, TOC_LINE_PATTERN. intros H.
  rewrite run_cat, run_bol in H by reflexivity.
  rewrite run_cat, run_grp, run_cat in H. unfold plus at 1 in H.
  rewrite run_rep_chr in H.
  apply rep_chr_sound in H as (d & s1 & Hs & Hd & Hlen & H).
  unfold star in H. rewrite run_rep in H.
  apply star_dot_parts_sound in H as (comps & rest & -> & Hc & H).
  assert (Hsn : take (length s - length rest) s = d ++ dot_parts comps).
  { apply take_prefix_eq. rewrite Hs, app_assoc. reflexivity. }
  rewrite Hsn in H. clear Hsn.
  set (sn := d ++ dot_parts comps) in *.
  assert (Hs' : s = sn ++ rest) by (rewrite Hs; unfold sn; apply app_assoc).
  clear Hs. rename Hs' into Hs.
  (* the dot, the blanks, the title and the blanks before the page *)
  rewrite run_cat in H. apply run_reach in H as (w1 & s2 & c2 & -> & H & Hc2).
  rewrite run_cat in H. apply run_reach in H as (w2 & s3 & c3 & -> & H & Hc3).
  rewrite run_cat in H. apply run_reach in H as (w3 & s4 & c4 & -> & H & Hc4).
  rewrite run_cat in H. apply run_reach in H as (w4 & s5 & c5 & -> & H & Hc5).
  rewrite run_cat, run_grp in H. unfold plus in H. rewrite run_rep_chr in H.
  apply rep_chr_sound in H as (page & e & -> & Hp & Hplen & H).
  rewrite run_eol in H. destruct (at_end e) eqn:He; [|discriminate].
  injection H as <-. rewrite take_prefix.
  exists sn, (w1 ++ w2 ++ w3 ++ w4 ++ page ++ e), (sn ++ w1 ++ w2 ++ w3 ++ w4),
         page, e.
  split; [exact Hs|]. split.
  { apply dotted_of_parts; auto. intros _ ->. cbn in Hlen. lia. }
  split.
  { unfold group. rewrite lookup_insert_ne by discriminate.
    rewrite Hc5, Hc4, Hc3, Hc2
      by (cbn; rewrite ?elem_of_cons, ?elem_of_nil; lia).
    rewrite lookup_insert_eq. reflexivity. }
  split; [rewrite Hs, <- !app_assoc; reflexivity|].
  split; [destruct page; [cbn in Hplen; lia|discriminate]|].
  split; [exact Hp|]. split; [|exact He].
  unfold group. rewrite lookup_insert_eq. reflexivity.
Qed.

(** ** Lines that are not contents lines, and what a parsed line is *)

Lemma no_runs_app_r a b : no_runs (a ++ b) = true -> no_runs b = true.
Proof.
  induction a as [|x a IH]; [auto|]. cbn. intros H.
  apply andb_prop in H as [_ H]. auto.
Qed.

Lemma no_runs_app_l a b : no_runs (a ++ b) = true -> no_runs a = true.
Proof.
  induction a as [|x a IH]; [auto|]. cbn [app no_runs]. intros H.
  apply andb_prop in H as [Hx H]. rewrite (IH H), andb_true_r.
  destruct a as [|y a]; [rewrite andb_false_r; reflexivity|exact Hx].
Qed.

Lemma no_runs_strip s : no_runs s = true -> no_runs (strip s) = true.
Proof.
  intros H. unfold strip.
  destruct (lstrip_spec s) as (w & Hs & _ & _).
  destruct (rstrip_spec (lstrip s)) as (w' & Hl & _ & _).
  rewrite Hs in H. apply no_runs_app_r in H.
  rewrite Hl in H. apply no_runs_app_l in H. exact H.
Qed.

Lemma strip_leaders_no_runs s : no_runs (strip_leaders s) = true.
Proof. apply sub_no_runs. reflexivity. Qed.

Lemma strip_ends_not_space s a :
  last (strip s) = Some a -> is_space a = false.
Proof.
  unfold strip. destruct (rstrip_spec (lstrip s)) as (_ & _ & _ & Hr).
  destruct Hr as [->|(r & z & -> & Hz)]; [discriminate|].
  rewrite last_snoc. congruence.
Qed.

Lemma length_strip text : (length (strip text) <= length text)%nat.
Proof.
  destruct (strip_cases text) as [[_ ->]|(w & a & u & w' & -> & _ & _ & _ & -> & _)];
    [cbn; lia|].
  rewrite !length_app. lia.
Qed.

Lemma toc_match_length s m :
  re_match TOC_LINE_PATTERN s = Some m ->
  (length (group m 3) <= length s)%nat.
Proof.
  intros Hm. apply toc_match_groups in Hm
    as (_ & _ & pre & page & e & _ & _ & _ & Hs & _ & _ & -> & _).
  rewrite Hs, !length_app. lia.
Qed.

Lemma parse_toc_line_short text :
  Z.of_nat (length text) <= int_max_str_digits -> parse_toc_line text <> ValueError.
Proof.
  intros Hlen Herr. apply parse_toc_line_error in Herr as (m & Hm & Hlong).
  apply toc_match_length in Hm. pose proof (length_strip text). lia.
Qed.

(** X1: the line parser raises through the limit of [int] only: exactly
    when the line, without the blanks around it, matches the pattern and
    its page number, the third group, has more digits than [int]
    converts; so it never raises on a line of at most 4300 characters. *)
Theorem parse_toc_line_raises_iff text :
  (parse_toc_line text = ValueError
   <-> exists m, re_match TOC_LINE_PATTERN (strip text) = Some m
                 /\ forallb is_digit (group m 3) = true
                 /\ int_max_str_digits < Z.of_nat (length (group m 3)))
  /\ (Z.of_nat (length text) <= int_max_str_digits ->
      parse_toc_line text <> ValueError).
Proof.
  split; [|apply parse_toc_line_short].
  rewrite parse_toc_line_error. split.
  - intros (m & Hm & Hlen). exists m. split; [exact Hm|]. split; [|exact Hlen].
    apply toc_match_page in Hm. apply Hm.
  - intros (m & Hm & _ & Hlen). eauto.
Qed.

(** X2: a text that, without the blanks around it, does not start with a
    digit or does not end with one is not a contents line; so the empty
    text, headings and prose are skipped. *)
Theorem parse_toc_line_rejects text :
  starts is_digit (strip text) && ends is_digit (strip text) = false ->
  parse_toc_line text = NotToc.
Proof.
  intros Hedge. unfold parse_toc_line.
  destruct (re_match TOC_LINE_PATTERN (strip text)) as [m|] eqn:Hm;
    [exfalso|reflexivity].
  apply toc_match_groups in Hm
    as (sn & rest & pre & page & e & Hs & Hsn & _ & Hs' & Hne & Hp & _ & He).
  apply andb_false_iff in Hedge as [Hstart|Hend].
  - (* the text starts with the section number *)
    rewrite Hs in Hstart. destruct sn as [|a sn]; [discriminate|].
    cbn in Hstart. unfold is_section_number in Hsn. cbn in Hsn.
    rewrite Hstart in Hsn. destruct (is_dot a); discriminate.
  - (* the text ends with the page number: no line feed is left behind it *)
    unfold ends in Hend. destruct (exists_last Hne) as (page' & z & ->).
    rewrite forallb_app in Hp. cbn in Hp.
    apply andb_prop in Hp as [_ Hz]. apply andb_prop in Hz as [Hz _].
    destruct e as [|b [|b' e]]; [| |discriminate].
    + rewrite Hs', app_nil_r, app_assoc, last_snoc in Hend. congruence.
    + assert (Hb : last (strip text) = Some b)
        by (rewrite Hs', !app_assoc, last_snoc; reflexivity).
      apply strip_ends_not_space in Hb. cbn in He.
      apply N.eqb_eq in He. revert Hb. unfold is_space. rewrite He.
      discriminate.
Qed.

Lemma parse_toc_line_rejects_witness :
  parse_toc_line (txt "  Table of contents 2024 edition ") = NotToc
  /\ parse_toc_line (txt "3.1 Overview") = NotToc
  /\ parse_toc_line [] = NotToc.
Proof.
  split; [|split].
  - exact (parse_toc_line_rejects (txt "  Table of contents 2024 edition ") eq_refl).
  - exact (parse_toc_line_rejects (txt "3.1 Overview") eq_refl).
  - exact (parse_toc_line_rejects [] eq_refl).
Defined.

(** X3: every parsed line is well formed: its title is a section number
    (runs of digits between single dots), a blank and a text that has no
    blank at either end and no two dots in a row; its level is the number
    of dots of the section number plus one, so at least 1; the text starts
    with the section number, once the blanks around it are gone. *)
Theorem parse_toc_line_well_formed text full_title level page :
  parse_toc_line text = TocLine full_title level page ->
  exists section_number title_text rest,
    full_title = section_number ++ txt " " ++ title_text
    /\ is_section_number section_number = true
    /\ strip text = section_number ++ rest
    /\ level = count_dots section_number + 1 /\ 1 <= level
    /\ strip title_text = title_text /\ no_runs title_text = true.
Proof.
  unfold parse_toc_line.
  destruct (re_match TOC_LINE_PATTERN (strip text)) as [m|] eqn:Hm;
    [|discriminate].
  apply toc_match_groups in Hm
    as (sn & rest & _ & _ & _ & Hs & Hsn & -> & _).
  destruct (py_int (group m 3)); [|discriminate]. intros [= <- <- _].
  exists sn, (strip (strip_leaders (strip (group m 2)))), rest.
  repeat split; auto.
  - assert (H0 : forall s, 0 <= count_dots s).
    { clear. induction s as [|a s IH]; cbn; [lia|]. destruct (is_dot a); lia. }
    specialize (H0 sn). lia.
  - apply strip_idem.
  - apply no_runs_strip, strip_leaders_no_runs.
Qed.

Lemma parse_toc_line_well_formed_witness :
  exists section_number title_text rest,
    txt "10.2 Costs, fees etc." = section_number ++ txt " " ++ title_text
    /\ is_section_number section_number = true
    /\ strip (txt " 10.2.   Costs, fees etc. ....... 17 ")
       = section_number ++ rest
    /\ 2 = count_dots section_number + 1 /\ 1 <= 2
    /\ strip title_text = title_text /\ no_runs title_text = true.
Proof.
  exact (parse_toc_line_well_formed
           (txt " 10.2.   Costs, fees etc. ....... 17 ")
           (txt "10.2 Costs, fees etc.") 2 17 eq_refl).
Defined.

(** X4: blanks before and behind a text do not change what the parser
    returns. *)
Theorem parse_toc_line_ignores_blanks w text w' :
  forallb is_space w = true -> forallb is_space w' = true ->
  parse_toc_line (w ++ text ++ w') = parse_toc_line text.
Proof.
  intros Hw Hw'. unfold parse_toc_line. rewrite strip_between by assumption.
  reflexivity.
Qed.

Lemma parse_toc_line_ignores_blanks_witness :
  parse_toc_line (txt "   " ++ txt "2. Design 10" ++ [" "%char; "009"%char; "010"%char])
  = parse_toc_line (txt "2. Design 10").
Proof.
  exact (parse_toc_line_ignores_blanks (txt "   ") (txt "2. Design 10")
           [" "%char; "009"%char; "010"%char] eq_refl eq_refl).
Defined.

(** ** Leader dots *)

Lemma without_dots_skip s : without_dots (skip is_dot s) = without_dots s.
Proof.
  induction s as [|a s IH]; [reflexivity|]. cbn.
  destruct (is_dot a) eqn:Ha; cbn; [exact IH|]. rewrite Ha. reflexivity.
Qed.

Lemma sub_loop_keeps fuel n s :
  without_dots (sub_loop fuel n LEADER_PATTERN s) = without_dots s
  /\ (length (sub_loop fuel n LEADER_PATTERN s) <= length s)%nat.
Proof.
  revert s. induction fuel as [|fuel IH]; intros s; [auto|].
  destruct s as [|a s]; [auto|]. rewrite sub_step.
  destruct (is_dot a && starts is_dot s) eqn:E.
  - apply andb_prop in E as [Ha _]. destruct (IH (skip is_dot s)) as [H1 H2].
    rewrite H1, without_dots_skip. cbn. rewrite Ha. cbn.
    pose proof (skip_length is_dot s). split; [reflexivity|lia].
  - destruct (IH s) as [H1 H2]. unfold without_dots in *. cbn.
    rewrite H1. split; [reflexivity|lia].
Qed.

(** X5: removing the leader dots deletes dots only: every other character
    stays, in its place among the others; no two dots in a row are left;
    a text without two dots in a row, such as ["v. 2.1"], is left as it
    is. *)
Theorem strip_leaders_deletes_dots_only s :
  without_dots (strip_leaders s) = without_dots s
  /\ no_runs (strip_leaders s) = true
  /\ (length (strip_leaders s) <= length s)%nat
  /\ (no_runs s = true -> strip_leaders s = s).
Proof.
  split; [apply sub_loop_keeps|]. split; [apply strip_leaders_no_runs|].
  split; [apply sub_loop_keeps|]. apply sub_id.
Qed.

(** * More on the entry extractor *)

Lemma parse_toc_line_strip text : parse_toc_line (strip text) = parse_toc_line text.
Proof. unfold parse_toc_line. rewrite strip_idem. reflexivity. Qed.

Lemma extract_omap paragraphs :
  extract_toc_entries paragraphs
  = if existsb raises paragraphs then None
    else Some (omap entry_of_line paragraphs).
Proof.
  induction paragraphs as [|para rest IH]; [reflexivity|].
  cbn [extract_toc_entries omap list_omap existsb].
  unfold entry_of_line at 1, raises at 1.
  rewrite <- (parse_toc_line_strip para).
  destruct (strip para) as [|a text] eqn:Hs; [exact IH|].
  destruct (parse_toc_line (a :: text)); cbn [orb]; [reflexivity|exact IH|].
  rewrite IH. destruct (existsb raises rest); reflexivity.
Qed.

Lemma count_dots_nonneg s : 0 <= count_dots s.
Proof. induction s as [|a s IH]; cbn; [lia|]. destruct (is_dot a); lia. Qed.

Lemma parse_toc_line_bounds text full_title level page :
  parse_toc_line text = TocLine full_title level page -> 1 <= level /\ 0 <= page.
Proof.
  unfold parse_toc_line. destruct (re_match _ _) as [m|]; [|discriminate].
  destruct (py_int (group m 3)) as [p|] eqn:Hp; [|discriminate].
  intros [= _ <- <-]. split.
  - pose proof (count_dots_nonneg (group m 1)). lia.
  - apply py_int_Some in Hp as [Hp _].
    apply (int_digits_nonneg _ _ _ Hp). lia.
Qed.

(** X6: the entry extractor raises exactly when the line parser raises on
    one of the paragraphs, which it does on none of at most 4300
    characters; otherwise it returns, in their order, the entries of the
    paragraphs that are contents lines and skips the others, so the
    entries of two runs of paragraphs put together are the entries of the
    first followed by those of the second; every entry has a level of 1
    or more and a page of 0 or more. *)
Theorem extract_toc_entries_spec before after :
  extract_toc_entries (before ++ after)
  = (if existsb raises before || existsb raises after then None
     else Some (omap entry_of_line before ++ omap entry_of_line after))
  /\ (Forall (fun para => Z.of_nat (length para) <= int_max_str_digits) before ->
      existsb raises before = false)
  /\ (length (omap entry_of_line before) <= length before)%nat
  /\ Forall (fun entry => 1 <= Entry.level entry /\ 0 <= Entry.page entry)
            (omap entry_of_line before).
Proof.
  split; [rewrite extract_omap, existsb_app, omap_app; reflexivity|].
  split; [|split].
  - induction 1 as [|para rest Hpara _ IH]; [reflexivity|].
    cbn [existsb]. rewrite IH, orb_false_r. unfold raises.
    pose proof (parse_toc_line_short para Hpara).
    destruct (parse_toc_line para); congruence.
  - induction before as [|para rest IH]; [reflexivity|].
    cbn. destruct (entry_of_line para); cbn; lia.
  - apply Forall_forall. intros entry Hin.
    apply list_elem_of_omap in Hin as (para & _ & Hentry).
    unfold entry_of_line in Hentry.
    destruct (parse_toc_line para) as [| |full_title level page] eqn:Hparse;
      try discriminate.
    injection Hentry as <-. cbn. eapply parse_toc_line_bounds, Hparse.
Qed.

(** * More on the projector *)

Lemma steps_ok_mono prev prev' levels :
  prev <= prev' -> steps_ok prev levels -> steps_ok prev' levels.
Proof. destruct levels; cbn; [auto|]. intros ? [? ?]. split; [lia|auto]. Qed.

Lemma steps_ok_nodes node depth prev rest :
  1 <= depth <= prev + 1 -> steps_ok depth rest ->
  steps_ok prev (map fst (nodes_with_depth depth node) ++ rest).
Proof.
  revert depth prev rest.
  induction node as [title dest color bold italic children IH] using bookmark_ind'.
  intros depth prev rest Hd Hrest. cbn [nodes_with_depth map app steps_ok fst].
  split; [exact Hd|].
  induction IH as [|c cs Hc _ IHcs]; [exact Hrest|].
  cbn [flat_map]. rewrite map_app, <- app_assoc.
  apply Hc; [lia|]. apply steps_ok_mono with depth; [lia|exact IHcs].
Qed.

Lemma steps_ok_forest forest :
  steps_ok 0 (map fst (forest_nodes forest)).
Proof.
  unfold forest_nodes. induction forest as [|node forest IH]; [exact I|].
  cbn [flat_map]. rewrite map_app.
  apply steps_ok_nodes; [lia|]. apply steps_ok_mono with 0; [lia|exact IH].
Qed.

(** X7: the levels of an outline the projector returns are those an
    outline must have to be nested again: the first is 1, and each of the
    others is at least 1 and at most one more than the one before it. *)
Theorem tree_to_toc_levels_nest doc_len forest outline :
  tree_to_toc doc_len forest [] 0 = Some outline ->
  steps_ok 0 (map toc_level outline).
Proof.
  rewrite tree_to_toc_outline.
  destruct (forallb page_is_number forest); [|discriminate].
  intros [= <-]. cbn [app]. rewrite map_map.
  change (map (fun dn => toc_level (record_of doc_len dn))
              (flat_map (nodes_with_depth (0 + 1)) forest))
    with (map fst (forest_nodes forest)).
  apply steps_ok_forest.
Qed.

Lemma tree_to_toc_levels_nest_witness :
  steps_ok 0 [1; 2; 2; 1].
Proof.
  exact (tree_to_toc_levels_nest 10 example_forest example_outline eq_refl).
Defined.

Lemma page_is_number_nodes node depth :
  page_is_number node = false
  <-> Exists (fun dn => page_is_string dn.2 = true) (nodes_with_depth depth node).
Proof.
  revert depth.
  induction node as [title dest color bold italic children IH] using bookmark_ind'.
  intros depth. cbn [page_is_number nodes_with_depth]. rewrite Exists_cons.
  assert (Hkids : forallb page_is_number children = false
    <-> Exists (fun dn => page_is_string dn.2 = true)
               (flat_map (nodes_with_depth (depth + 1)) children)).
  { induction IH as [|c cs Hc _ IHcs]; cbn.
    - rewrite Exists_nil. split; [discriminate|tauto].
    - rewrite Exists_app, andb_false_iff, (Hc (depth + 1)), IHcs. tauto. }
  destruct dest as [[|[p|s] dest]|]; cbn; rewrite ?Hkids;
    split; auto; intros [H|H]; auto; discriminate.
Qed.

(** X8: the projector raises when the destination of one of the nodes of
    the forest starts with a string.  A node without a destination, or
    with an empty one, does not stop it: it gets the page 1, and the
    projector goes on with its children.  When the projector returns, the
    list it was given is the start of the list it returns, and one record
    for each node follows. *)
Theorem tree_to_toc_raises doc_len forest toc_list parent_level :
  (Exists (fun dn => page_is_string dn.2 = true) (forest_nodes forest) ->
   tree_to_toc doc_len forest toc_list parent_level = None)
  /\ (forall outline,
        tree_to_toc doc_len forest toc_list parent_level = Some outline ->
        exists records,
          outline = toc_list ++ records
          /\ length records = length (forest_nodes forest))
  /\ (forall title dest color bold italic,
        dest = None \/ dest = Some [] ->
        tree_to_toc doc_len [Bookmark title dest color bold italic forest]
                    toc_list parent_level
        = tree_to_toc doc_len forest
            (toc_list ++ [(parent_level + 1, default (txt "Untitled") title, 1)])
            (parent_level + 1)).
Proof.
  split; [|split].
  - rewrite tree_to_toc_outline. intros Hex.
    replace (forallb page_is_number forest) with false; [reflexivity|].
    symmetry. unfold forest_nodes in Hex.
    induction forest as [|node forest IH]; cbn in *.
    + apply Exists_nil in Hex. contradiction.
    + apply andb_false_iff. apply Exists_app in Hex as [Hex|Hex].
      * left. apply (page_is_number_nodes node 1), Hex.
      * right. apply IH, Hex.
  - rewrite tree_to_toc_outline.
    intros outline. destruct (forallb page_is_number forest); [|discriminate].
    intros [= <-]. eexists. split; [reflexivity|].
    rewrite length_map. unfold forest_nodes. clear.
    assert (Hlen : forall d d' node,
      length (nodes_with_depth d node) = length (nodes_with_depth d' node)).
    { intros d d' node. revert d d'.
      induction node as [? ? ? ? ? children IH] using bookmark_ind'.
      intros d d'. cbn. f_equal.
      induction IH as [|c cs Hc _ IHcs]; [reflexivity|].
      cbn. rewrite !length_app, (Hc (d + 1) (d' + 1)), IHcs. reflexivity. }
    induction forest as [|node forest IH]; [reflexivity|].
    cbn. rewrite !length_app, IH, (Hlen (parent_level + 1) 1). reflexivity.
  - intros title dest color bold italic Hdest.
    assert (Hpage : Z.max 1 (Z.min 1 doc_len) = 1) by lia.
    unfold tree_to_toc. cbn [for_each toc_of_node].
    destruct Hdest as [-> | ->]; cbn [dest_page mbind option_bind];
      rewrite Hpage; fold (toc_of_node doc_len);
      destruct (for_each _ forest _); reflexivity.
Qed.

(** * From the entries to the outline *)

Lemma clamp_level_range level : 1 <= clamp_level level <= 9.
Proof. unfold clamp_level. lia. Qed.

Lemma deep_extend levels x d t : deep levels d t -> deep (levels ++ [x]) d t.
Proof.
  revert d. induction t as [a ts IH] using atree_ind'. intros d Hdeep.
  inversion Hdeep as [d' a' ts' l Hl Hd Hts]; subst.
  apply deep_node with l; [apply lookup_app_l_Some, Hl|exact Hd|].
  clear Hl Hdeep. induction ts as [|t ts IHts]; constructor.
  - apply Forall_cons in IH as [IH _]. apply Forall_cons in Hts as [Ht _]. auto.
  - apply Forall_cons in IH as [_ IH]. apply Forall_cons in Hts as [_ Hts]. auto.
Qed.

Lemma deep_graft levels level p d t :
  levels !! p = Some (level - 1) -> deep levels d t ->
  deep (levels ++ [level]) d (graft p (length levels) t).
Proof.
  intros Hp. revert d. induction t as [a ts IH] using atree_ind'. intros d Hdeep.
  inversion Hdeep as [d' a' ts' l Hl Hd Hts]; subst. cbn [graft].
  apply deep_node with l; [apply lookup_app_l_Some, Hl|exact Hd|].
  apply Forall_app. split.
  - clear Hl Hdeep. induction ts as [|t ts IHts]; constructor.
    + apply Forall_cons in IH as [IH _]. apply Forall_cons in Hts as [Ht _]. auto.
    + apply Forall_cons in IH as [_ IH]. apply Forall_cons in Hts as [_ Hts]. auto.
  - destruct (decide (a = p)) as [->|_]; [|constructor].
    constructor; [|constructor].
    apply deep_node with level; [|rewrite Hp in Hl; injection Hl as <-; lia|constructor].
    apply list_lookup_middle. reflexivity.
Qed.

Lemma levels_of_snoc entries entry :
  levels_of (entries ++ [entry])
  = levels_of entries ++ [clamp_level (Entry.level entry)].
Proof. apply map_app. Qed.

(** The builder never nests a node deeper than its level. *)
Lemma build_deep entries :
  exists F,
    shaped (build_bookmark_tree entries) F
    /\ Forall (deep (levels_of entries) 1) F
    /\ (forall l a, last_nodes (build_bookmark_tree entries) !! l = Some a ->
                    levels_of entries !! a = Some l).
Proof.
  induction entries as [|entry entries (F & HF & Hdeep & Hlast)] using rev_ind.
  - exists []. split; [apply shaped_new|]. split; [constructor|].
    intros l a H. cbn in H. rewrite lookup_empty in H. discriminate.
  - rewrite build_snoc, levels_of_snoc.
    assert (Hn : length (store (build_bookmark_tree entries))
                 = length (levels_of entries)).
    { rewrite store_length. unfold levels_of. rewrite length_map. reflexivity. }
    assert (Hnew : forall (m : gmap Z nat) l a,
      <[clamp_level (Entry.level entry)
        := length (store (build_bookmark_tree entries))]> m !! l = Some a ->
      (forall l' a', m !! l' = Some a' -> levels_of entries !! a' = Some l') ->
      (levels_of entries ++ [clamp_level (Entry.level entry)]) !! a = Some l).
    { intros m l a. rewrite lookup_insert. case_decide.
      - intros [= <-] _. subst l. apply list_lookup_middle. auto.
      - intros Hm Hold. apply lookup_app_l_Some. eauto. }
    destruct (add_entry_cases (build_bookmark_tree entries) entry)
      as [->|(parent & Hp & ->)].
    + exists (F ++ [ANode (length (store (build_bookmark_tree entries))) []]).
      split; [apply shaped_root, HF|]. split.
      * apply Forall_app. split.
        -- eapply Forall_impl; [exact Hdeep|]. intros t. apply deep_extend.
        -- constructor; [|constructor].
           apply deep_node with (clamp_level (Entry.level entry));
             [apply list_lookup_middle; auto|apply clamp_level_range|constructor].
      * intros l a H. cbn in H. eapply Hnew; eauto.
    + exists (map (graft parent (length (store (build_bookmark_tree entries)))) F).
      split.
      * apply shaped_under; [exact HF|].
        destruct HF as (_ & _ & _ & Hlt). eapply Hlt, Hp.
      * split.
        -- apply Forall_map. eapply Forall_impl; [exact Hdeep|].
           intros t Ht. rewrite Hn. apply deep_graft; auto.
        -- intros l a H. cbn in H. eapply Hnew; eauto.
Qed.

Lemma deep_depths levels h d t :
  Forall (fun l => l <= 9) levels -> deep levels d t ->
  Forall (fun dn => dn.1 <= 9) (nodes_with_depth d (erase h t)).
Proof.
  intros Hl. revert d. induction t as [a ts IH] using atree_ind'. intros d Hdeep.
  inversion Hdeep as [d' a' ts' l Hla Hd Hts]; subst.
  cbn [erase nodes_with_depth]. constructor.
  - cbn. eapply Forall_lookup_1 in Hla; [|exact Hl]. cbn in Hla. lia.
  - clear Hla Hdeep. induction ts as [|t ts IHts]; [constructor|].
    apply Forall_cons in IH as [IHt IH]. apply Forall_cons in Hts as [Ht Hts].
    cbn. apply Forall_app. split; auto.
Qed.

Lemma levels_of_bound entries : Forall (fun l => l <= 9) (levels_of entries).
Proof. apply Forall_map, Forall_forall. intros e _. apply clamp_level_range. Qed.






(** * More on the tree builder *)

Lemma label_at_extend h x a :
  (a < length h)%nat -> label_at (h ++ [x]) a = label_at h a.
Proof. intros Ha. unfold label_at. rewrite lookup_app_l by exact Ha. reflexivity. Qed.

Lemma label_at_new h x : label_at (h ++ [x]) (length h) = node_label x.
Proof. unfold label_at. rewrite list_lookup_middle by reflexivity. reflexivity. Qed.

Lemma label_at_alter h child p a :
  label_at (alter (Node.append_child child) p h) a = label_at h a.
Proof.
  unfold label_at. rewrite list_lookup_alter. case_decide; [|reflexivity].
  subst p. destruct (h !! a); reflexivity.
Qed.

Lemma label_at_add_entry b entry a :
  (a < length (store b))%nat ->
  label_at (store (add_entry b entry)) a = label_at (store b) a.
Proof.
  intros Ha. destruct (add_entry_cases b entry) as [->|(parent & _ & ->)]; cbn.
  - apply label_at_extend, Ha.
  - rewrite label_at_alter. apply label_at_extend, Ha.
Qed.

Lemma label_at_fresh b entry :
  label_at (store (add_entry b entry)) (length (store b)) = entry_label entry.
Proof.
  destruct (add_entry_cases b entry) as [->|(parent & _ & ->)]; cbn.
  - apply label_at_new.
  - rewrite label_at_alter. apply label_at_new.
Qed.

Lemma root_add_entry b entry :
  root (add_entry b entry) = root b ++ [length (store b)]
  \/ (is_level_1 entry = false /\ root (add_entry b entry) = root b).
Proof.
  unfold add_entry, is_level_1.
  destruct (clamp_level (Entry.level entry) =? 1); [left; reflexivity|].
  destruct (last_nodes b !! _); [right|left]; auto.
Qed.

Lemma root_level_1 b entry :
  is_level_1 entry = true ->
  root (add_entry b entry) = root b ++ [length (store b)].
Proof.
  intros H. unfold is_level_1 in H. apply Z.eqb_eq in H.
  rewrite add_entry_root by exact H. reflexivity.
Qed.

Lemma length_store_add_entry b entry :
  length (store (add_entry b entry)) = S (length (store b)).
Proof.
  destruct (add_entry_cases b entry) as [->|(parent & _ & ->)]; cbn;
    rewrite ?length_alter, length_app; cbn; lia.
Qed.

Lemma build_roots entries :
  let b := build_bookmark_tree entries in
  Forall (fun a => (a < length (store b))%nat) (root b)
  /\ sublist (map entry_label (List.filter is_level_1 entries))
             (map (label_at (store b)) (root b))
  /\ sublist (map (label_at (store b)) (root b)) (map entry_label entries).
Proof.
  induction entries as [|entry entries (Hlt & Hsub1 & Hsub2)] using rev_ind.
  - cbn. repeat split; constructor.
  - cbn zeta in *. rewrite build_snoc. set (b := build_bookmark_tree entries) in *.
    assert (Hold : map (label_at (store (add_entry b entry))) (root b)
                   = map (label_at (store b)) (root b)).
    { apply map_ext_in. intros a Ha. apply label_at_add_entry.
      rewrite Forall_forall in Hlt. apply Hlt. apply list_elem_of_In, Ha. }
    rewrite List.filter_app, !map_app. cbn [List.filter map].
    rewrite length_store_add_entry.
    destruct (is_level_1 entry) eqn:H1.
    + rewrite root_level_1 by exact H1. rewrite map_app, Hold. cbn [map].
      rewrite label_at_fresh. split; [|split].
      * apply Forall_app. split; [|repeat constructor].
        eapply Forall_impl; [exact Hlt|]. cbn. intros; lia.
      * apply sublist_app; [exact Hsub1|reflexivity].
      * apply sublist_app; [exact Hsub2|reflexivity].
    + cbn [map]. rewrite app_nil_r.
      destruct (root_add_entry b entry) as [->|[_ ->]].
      * rewrite map_app, Hold. cbn [map]. rewrite label_at_fresh. split; [|split].
        -- apply Forall_app. split; [|repeat constructor].
           eapply Forall_impl; [exact Hlt|]. cbn. intros; lia.
        -- apply sublist_inserts_r, Hsub1.
        -- apply sublist_app; [exact Hsub2|reflexivity].
      * rewrite Hold. split; [|split].
        -- eapply Forall_impl; [exact Hlt|]. cbn. intros; lia.
        -- exact Hsub1.
        -- apply sublist_inserts_r, Hsub2.
Qed.

(** X10: the roots of the forest are nodes of entries, in the order of
    the entries; among them are, in that order too, the nodes of all
    entries of level 1 (or less, which counts as 1). *)
Theorem roots_in_source_order entries :
  exists forest,
    dump_tree (build_bookmark_tree entries) = Some forest
    /\ sublist (map entry_label (List.filter is_level_1 entries))
               (map root_label forest)
    /\ sublist (map root_label forest) (map entry_label entries).
Proof.
  destruct (build_shaped entries) as [F HF].
  destruct (build_roots entries) as (_ & Hsub1 & Hsub2).
  set (b := build_bookmark_tree entries) in *.
  exists (map (erase (store b)) F).
  assert (Hroots : map root_label (map (erase (store b)) F)
                   = map (label_at (store b)) (root b)).
  { destruct HF as (<- & _). rewrite !map_map. apply map_ext.
    intros [a ts]. reflexivity. }
  rewrite Hroots. split; [apply dump_shaped, HF|]. split; assumption.
Qed.

Lemma clamp_level_idem level : clamp_level (clamp_level level) = clamp_level level.
Proof. unfold clamp_level. lia. Qed.

Lemma add_entry_clamp b entry :
  add_entry b (clamp_entry entry) = add_entry b entry.
Proof. unfold add_entry, clamp_entry. cbn. rewrite clamp_level_idem. reflexivity. Qed.

(** X11: a level below 1 is taken for 1 and a level above 9 for 9: the
    builder builds the same store from the entries as from the entries
    with their levels clamped. *)
Theorem build_clamps_levels entries :
  build_bookmark_tree (map clamp_entry entries) = build_bookmark_tree entries
  /\ Forall (fun entry => 1 <= Entry.level entry <= 9) (map clamp_entry entries).
Proof.
  split.
  - induction entries as [|entry entries IH] using rev_ind; [reflexivity|].
    rewrite map_app. cbn [map]. rewrite !build_snoc, IH. apply add_entry_clamp.
  - apply Forall_map, Forall_forall. intros entry _. apply clamp_level_range.
Qed.

(** * The builder on a table of contents in pre-order *)

Lemma etree_ind' (P : etree -> Prop) :
  (forall title page children, Forall P children -> P (ETree title page children)) ->
  forall t, P t.
Proof.
  intros H. fix IH 1. intros [title page children]. apply H.
  induction children as [|c cs IHcs]; constructor; [apply IH|apply IHcs].
Qed.

Lemma layout_eq n title page children :
  layout n (ETree title page children)
  = Node.mk title [JInt page; JStr (txt "Fit")]
            [(txt "0", 0); (txt "1", 0); (txt "2", 0)] false false
            (roots_from (S n) children)
    :: layout_forest (S n) children.
Proof. reflexivity. Qed.

Lemma layout_forest_cons n t ts :
  layout_forest n (t :: ts) = layout n t ++ layout_forest (n + esize t)%nat ts.
Proof. reflexivity. Qed.

Lemma length_layout n t : length (layout n t) = esize t.
Proof.
  revert n. induction t as [title page children IH] using etree_ind'.
  intros n. rewrite layout_eq. cbn [length esize]. f_equal.
  generalize (S n). induction IH as [|c cs Hc _ IHcs]; intros m; [reflexivity|].
  rewrite layout_forest_cons, length_app, Hc, IHcs. reflexivity.
Qed.

Lemma append_children_nil nd : append_children [] nd = nd.
Proof. destruct nd. unfold append_children. cbn. rewrite app_nil_r. reflexivity. Qed.

Lemma append_children_cons child children nd :
  append_children children (Node.append_child child nd)
  = append_children (child :: children) nd.
Proof.
  unfold append_children, Node.append_child. cbn. rewrite <- app_assoc.
  reflexivity.
Qed.

Lemma eheight_children title page children d :
  d + Z.of_nat (eheight (ETree title page children)) <= 10 ->
  Forall (fun c => d + 1 + Z.of_nat (eheight c) <= 10) children.
Proof.
  cbn [eheight]. intros H. apply Forall_forall. intros c Hc.
  assert (eheight c <= max_list (map eheight children))%nat; [|lia].
  apply max_list_elem_of_le, list_elem_of_fmap. eauto.
Qed.

(** The children of a node, one tree after the other. *)
Lemma builds_children d p children :
  Forall builds_subtree children ->
  1 < d -> Forall (fun c => d + Z.of_nat (eheight c) <= 10) children ->
  forall b,
    last_nodes b !! (d - 1) = Some p -> (p < length (store b))%nat ->
    let n := length (store b) in
    let b' := foldl add_entry b (flat_map (entries_of d) children) in
    store b' = alter (append_children (roots_from n children)) p (store b)
               ++ layout_forest n children
    /\ root b' = root b
    /\ (forall l, l < d -> last_nodes b' !! l = last_nodes b !! l).
Proof.
  intros Hall Hd Hh. induction Hall as [|c cs Hc _ IH]; intros b Hp Hlt; cbn zeta.
  - cbn. rewrite app_nil_r. split; [|auto]. symmetry.
    apply list_alter_id, append_children_nil.
  - apply Forall_cons in Hh as [Hhc Hhcs]. cbn [flat_map]. rewrite foldl_app.
    destruct (Hc d b ltac:(lia) Hhc) as (Hlast & Hkeep & _ & Hunder).
    destruct (Hunder p Hd Hp Hlt) as [Hstore Hroot].
    set (b1 := foldl add_entry b (entries_of d c)) in *.
    assert (Hlen1 : length (store b1) = (length (store b) + esize c)%nat).
    { rewrite Hstore, length_app, length_alter, length_layout. reflexivity. }
    destruct (IH Hhcs b1) as (Hstore' & Hroot' & Hkeep').
    { rewrite Hkeep by lia. exact Hp. }
    { lia. }
    cbn zeta in Hstore'. split; [|split].
    + rewrite Hstore', Hlen1, Hstore.
      rewrite alter_app_l by (rewrite length_alter; exact Hlt).
      rewrite list_alter_alter_eq, <- app_assoc. cbn [roots_from].
      rewrite layout_forest_cons. f_equal.
      apply list_alter_ext; [|reflexivity]. intros nd _. cbn.
      apply append_children_cons.
    + rewrite Hroot'. exact Hroot.
    + intros l Hl. rewrite Hkeep', Hkeep by exact Hl. reflexivity.
Qed.

Lemma clamp_level_id d : 1 <= d <= 9 -> clamp_level d = d.
Proof. unfold clamp_level. lia. Qed.

Lemma alter_end {A} (f : A -> A) (l : list A) (x : A) :
  alter f (length l) (l ++ [x]) = l ++ [f x].
Proof.
  rewrite <- (Nat.add_0_r (length l)) at 1. rewrite alter_app_r. reflexivity.
Qed.

Lemma builds_any_subtree t : builds_subtree t.
Proof.
  induction t as [title page children IH] using etree_ind'.
  intros d b Hd Hh. cbn zeta. cbn [entries_of foldl].
  set (entry := Entry.mk title d page). set (n := length (store b)).
  assert (Hlevel : clamp_level d = d).
  { apply clamp_level_id. cbn [eheight] in Hh. lia. }
  pose proof (eheight_children title page children d Hh) as Hkids.
  (* after the root: level [d] is its, and its children follow it *)
  assert (Hafter : forall b1,
    length (store b1) = S n ->
    last_nodes b1 = <[d := n]> (last_nodes b) ->
    let b' := foldl add_entry b1 (flat_map (entries_of (d + 1)) children) in
    last_nodes b' !! d = Some n
    /\ (forall l, l < d -> last_nodes b' !! l = last_nodes b !! l)
    /\ root b' = root b1
    /\ forall front, store b1 = front ++ [new_node entry] ->
         store b' = front ++ layout n (ETree title page children)).
  { intros b1 Hlen Hlast.
    destruct (builds_children (d + 1) n children IH ltac:(lia) Hkids b1)
      as (Hstore' & Hroot' & Hkeep').
    { rewrite Hlast. replace (d + 1 - 1) with d by lia. apply lookup_insert_eq. }
    { rewrite Hlen. lia. }
    cbn zeta in *. split; [|split; [|split; [exact Hroot'|]]].
    - rewrite Hkeep' by lia. rewrite Hlast. apply lookup_insert_eq.
    - intros l Hl. rewrite Hkeep' by lia. rewrite Hlast.
      apply lookup_insert_ne. lia.
    - intros front Hstore. rewrite Hstore', Hlen, Hstore.
      assert (Hfront : length front = n).
      { rewrite Hstore, length_app in Hlen. cbn in Hlen. lia. }
      rewrite <- Hfront, alter_end, <- app_assoc. cbn [app].
      rewrite layout_eq. reflexivity. }
  assert (Hroot : placed_as_root b entry
                  = mk_builder (store b ++ [new_node entry]) (root b ++ [n])
                               (<[d := n]> (last_nodes b))).
  { unfold placed_as_root. cbn [Entry.level entry]. rewrite Hlevel. reflexivity. }
  assert (Hunder : forall p, placed_under p b entry
                  = mk_builder (alter (Node.append_child n) p
                                      (store b ++ [new_node entry])) (root b)
                               (<[d := n]> (last_nodes b))).
  { intros p. unfold placed_under. cbn [Entry.level entry]. rewrite Hlevel.
    reflexivity. }
  assert (Hnodes : last_nodes (foldl add_entry (add_entry b entry)
                                 (flat_map (entries_of (d + 1)) children)) !! d
                   = Some n
                   /\ forall l, l < d ->
                        last_nodes (foldl add_entry (add_entry b entry)
                                 (flat_map (entries_of (d + 1)) children)) !! l
                        = last_nodes b !! l).
  { destruct (add_entry_cases b entry) as [->|(parent & Hp & ->)].
    - rewrite Hroot.
      destruct (Hafter (mk_builder (store b ++ [new_node entry]) (root b ++ [n])
                               (<[d := n]> (last_nodes b)))) as (H1 & H2 & _);
        [cbn; rewrite length_app; cbn; lia | reflexivity | auto].
    - rewrite Hunder.
      destruct (Hafter (mk_builder (alter (Node.append_child n) parent
                                      (store b ++ [new_node entry])) (root b)
                               (<[d := n]> (last_nodes b)))) as (H1 & H2 & _);
        [cbn; rewrite length_alter, length_app; cbn; lia | reflexivity | auto]. }
  split; [apply Hnodes|split; [apply Hnodes|split]].
  - intros ->. rewrite add_entry_root by exact Hlevel. rewrite Hroot.
    destruct (Hafter (mk_builder (store b ++ [new_node entry]) (root b ++ [n])
                               (<[1 := n]> (last_nodes b)))) as (_ & _ & Hr & Hs);
      [cbn; rewrite length_app; cbn; lia | reflexivity |].
    split; [apply Hs; reflexivity | exact Hr].
  - intros p Hd1 Hp Hlt.
    rewrite (add_entry_child b entry p)
      by (cbn [Entry.level entry]; rewrite Hlevel; first [lia|exact Hp]).
    rewrite Hunder.
    destruct (Hafter (mk_builder (alter (Node.append_child n) p
                                      (store b ++ [new_node entry])) (root b)
                               (<[d := n]> (last_nodes b)))) as (_ & _ & Hr & Hs);
      [cbn; rewrite length_alter, length_app; cbn; lia | reflexivity |].
    split; [apply Hs; cbn; apply alter_app_l; exact Hlt | exact Hr].
Qed.

Lemma eheight_le_esize t : (eheight t <= esize t)%nat.
Proof.
  induction t as [title page children IH] using etree_ind'.
  cbn [eheight esize]. apply le_n_S.
  induction IH as [|c cs Hc _ IHcs]; [reflexivity|]. cbn. lia.
Qed.

Lemma length_layout_forest n ts :
  length (layout_forest n ts) = sum_list (map esize ts).
Proof.
  revert n. induction ts as [|t ts IH]; intros n; [reflexivity|].
  rewrite layout_forest_cons, length_app, length_layout, IH. reflexivity.
Qed.

(** The trees of level 1, one after the other. *)
Lemma builds_forest forest :
  Forall (fun t => (eheight t <= 9)%nat) forest ->
  forall b,
    let n := length (store b) in
    let b' := foldl add_entry b (flat_map (entries_of 1) forest) in
    store b' = store b ++ layout_forest n forest
    /\ root b' = root b ++ roots_from n forest.
Proof.
  induction 1 as [|t ts Ht _ IH]; intros b; cbn zeta.
  - cbn. rewrite !app_nil_r. auto.
  - cbn [flat_map]. rewrite foldl_app.
    destruct (builds_any_subtree t 1 b ltac:(lia) ltac:(lia))
      as (_ & _ & Hroot & _).
    destruct (Hroot eq_refl) as [Hs Hr].
    set (b1 := foldl add_entry b (entries_of 1 t)) in *.
    destruct (IH b1) as [Hs' Hr']. cbn zeta in *.
    rewrite Hs', Hr', Hs, Hr, length_app, length_layout, <- !app_assoc.
    rewrite layout_forest_cons. cbn [roots_from app]. auto.
Qed.

(** Reading a forest that lies in the store back as a value. *)
Lemma dump_layout_forest depth ts :
  Forall (fun t => forall pre post,
            dump_node depth (pre ++ layout (length pre) t ++ post) (length pre)
            = Some (bookmark_tree t)) ts ->
  forall pre post,
    mapM (dump_node depth (pre ++ layout_forest (length pre) ts ++ post))
         (roots_from (length pre) ts)
    = Some (map bookmark_tree ts).
Proof.
  induction 1 as [|t ts Ht _ IH]; intros pre post; [reflexivity|].
  cbn [roots_from map]. rewrite layout_forest_cons.
  change (mapM ?f (?x :: ?l)) with (y ← f x; k ← mapM f l; mret (y :: k)).
  rewrite <- app_assoc, Ht. cbn [mbind option_bind].
  specialize (IH (pre ++ layout (length pre) t) post).
  rewrite length_app, length_layout, <- app_assoc in IH. rewrite IH.
  reflexivity.
Qed.

Lemma dump_layout t depth pre post :
  (eheight t <= depth)%nat ->
  dump_node depth (pre ++ layout (length pre) t ++ post) (length pre)
  = Some (bookmark_tree t).
Proof.
  revert depth pre post.
  induction t as [title page children IH] using etree_ind'.
  intros [|depth] pre post Hd; [cbn in Hd; lia|].
  assert (Hall : Forall (fun t => forall pre post,
            dump_node depth (pre ++ layout (length pre) t ++ post) (length pre)
            = Some (bookmark_tree t)) children).
  { cbn [eheight] in Hd. apply Nat.succ_le_mono in Hd. clear pre post.
    induction IH as [|c cs Hc _ IHcs]; constructor.
    - intros pre post. apply Hc. cbn in Hd. lia.
    - apply IHcs. cbn in Hd. lia. }
  cbn [dump_node]. rewrite layout_eq. set (nd := Node.mk _ _ _ _ _ _).
  change ((nd :: ?l) ++ post) with (nd :: l ++ post).
  rewrite list_lookup_middle by reflexivity. cbn [mbind option_bind].
  change (Node.children nd) with (roots_from (S (length pre)) children).
  assert (Hlen : S (length pre) = length (pre ++ [nd])).
  { rewrite length_app, Nat.add_1_r. reflexivity. }
  replace (pre ++ nd :: layout_forest (S (length pre)) children ++ post)
    with ((pre ++ [nd]) ++ layout_forest (S (length pre)) children ++ post)
    by (rewrite <- app_assoc; reflexivity).
  rewrite Hlen.
  rewrite dump_layout_forest; [reflexivity|exact Hall].
Qed.

(** The builder on a table of contents in pre-order. *)
Lemma dump_build_preorder forest :
  Forall (fun t => (eheight t <= 9)%nat) forest ->
  dump_tree (build_bookmark_tree (flat_map (entries_of 1) forest))
  = Some (map bookmark_tree forest).
Proof.
  intros Hh. unfold dump_tree, build_bookmark_tree.
  destruct (builds_forest forest Hh new_builder) as [Hs Hr]. cbn zeta in *.
  rewrite Hs, Hr. cbn [new_builder store root app length].
  pose proof (dump_layout_forest (length (layout_forest 0 forest)) forest) as H.
  specialize (fun Hall => H Hall [] []). cbn [app length] in H.
  rewrite app_nil_r in H. apply H. clear H Hs Hr Hh.
  rewrite length_layout_forest.
  assert (Hall : Forall (fun t => (eheight t <= sum_list (map esize forest))%nat)
                        forest).
  { induction forest as [|t ts IH]; constructor.
    - pose proof (eheight_le_esize t). cbn. lia.
    - eapply Forall_impl; [exact IH|]. cbn. intros ? ?. lia. }
  eapply Forall_impl; [exact Hall|]. cbn. intros t Ht pre post.
  apply dump_layout, Ht.
Qed.

Lemma page_is_number_bookmark_tree t : page_is_number (bookmark_tree t) = true.
Proof.
  induction t as [title page children IH] using etree_ind'. cbn.
  induction IH as [|c cs Hc _ IHcs]; [reflexivity|]. cbn. rewrite Hc. exact IHcs.
Qed.

Lemma records_bookmark_tree total t d :
  map (record_of total) (nodes_with_depth d (bookmark_tree t))
  = map (record_of_entry total) (entries_of d t).
Proof.
  revert d. induction t as [title page children IH] using etree_ind'. intros d.
  cbn [bookmark_tree nodes_with_depth entries_of map]. f_equal.
  induction IH as [|c cs Hc _ IHcs]; [reflexivity|].
  cbn [map flat_map]. rewrite !map_app, Hc, IHcs. reflexivity.
Qed.

(** The projector on the bookmark tree of a table of contents. *)
Lemma tree_to_toc_bookmark_tree total forest :
  tree_to_toc total (map bookmark_tree forest) [] 0
  = Some (map (record_of_entry total) (flat_map (entries_of 1) forest)).
Proof.
  rewrite tree_to_toc_outline.
  replace (forallb page_is_number (map bookmark_tree forest)) with true.
  2:{ symmetry. apply forallb_forall. intros x Hx. apply in_map_iff in Hx.
      destruct Hx as (t & <- & _). apply page_is_number_bookmark_tree. }
  cbn [app]. f_equal. change (0 + 1) with 1.
  induction forest as [|t ts IH]; [reflexivity|].
  cbn [map flat_map]. rewrite !map_app, records_bookmark_tree, IH. reflexivity.
Qed.

Lemma entry_of_record_of_entry total t d :
  pages_within total t = true ->
  map entry_of_record (map (record_of_entry total) (entries_of d t))
  = entries_of d t.
Proof.
  revert d. induction t as [title page children IH] using etree_ind'.
  intros d Hp. cbn [pages_within] in Hp.
  apply andb_prop in Hp as [Hp Hcs]. apply andb_prop in Hp as [H1 H2].
  cbn [entries_of map]. f_equal.
  - unfold entry_of_record, record_of_entry, toc_title, toc_level, toc_page.
    cbn. f_equal. unfold clamp_page. lia.
  - clear H1 H2. induction IH as [|c cs Hc _ IHcs]; [reflexivity|].
    cbn [forallb] in Hcs. apply andb_prop in Hcs as [Hpc Hpcs].
    cbn [flat_map]. rewrite !map_app, Hc, IHcs by assumption. reflexivity.
Qed.

Lemma spine_le d d' forest : spine d forest -> (d' <= d)%nat -> spine d' forest.
Proof.
  intros H. revert d'. induction H as [forest|d init title page children _ IH];
    intros [|d'] Hd; try apply spine_0; [lia|].
  apply spine_S, IH. lia.
Qed.

Lemma eheight_le title page children h :
  (eheight (ETree title page children) <= S h)%nat
  <-> Forall (fun c => (eheight c <= h)%nat) children.
Proof.
  cbn [eheight]. split.
  - intros H. apply Forall_forall. intros c Hc.
    assert (eheight c <= max_list (map eheight children))%nat; [|lia].
    apply max_list_elem_of_le, list_elem_of_fmap. eauto.
  - intros H. apply le_n_S. induction H as [|c cs Hc _ IH]; cbn; lia.
Qed.

(** One more heading behind a table of contents: it goes below the last
    heading of the level before its own. *)
Lemma spine_add d forest :
  spine d forest ->
  forall k title page h,
    Forall (fun t => (eheight t <= h)%nat) forest -> (S d <= h)%nat ->
    exists forest',
      flat_map (entries_of k) forest'
      = flat_map (entries_of k) forest ++ [Entry.mk title (k + Z.of_nat d) page]
      /\ spine (S d) forest'
      /\ Forall (fun t => (eheight t <= h)%nat) forest'.
Proof.
  induction 1 as [forest|d init title0 page0 children _ IH];
    intros k title page h Hh Hd.
  - exists (forest ++ [ETree title page []]). split; [|split].
    + rewrite flat_map_app. cbn. rewrite Z.add_0_r. reflexivity.
    + apply spine_S, spine_0.
    + apply Forall_app. split; [exact Hh|]. constructor; [cbn; lia|constructor].
  - apply Forall_app in Hh as [Hinit Hlast]. apply Forall_cons in Hlast as [Hlast _].
    destruct h as [|h]; [lia|]. apply eheight_le in Hlast.
    destruct (IH (k + 1) title page h Hlast ltac:(lia)) as (cs' & Hpre & Hsp & Hh').
    exists (init ++ [ETree title0 page0 cs']). split; [|split].
    + rewrite !flat_map_app. cbn [flat_map entries_of]. rewrite Hpre, !app_nil_r.
      rewrite <- !app_assoc. cbn [app].
      replace (k + 1 + Z.of_nat d) with (k + Z.of_nat (S d)) by lia. reflexivity.
    + apply spine_S, Hsp.
    + apply Forall_app. split; [exact Hinit|]. constructor; [|constructor].
      apply eheight_le, Hh'.
Qed.

Lemma last_level_cons prev l ls : last_level prev (l :: ls) = last_level l ls.
Proof.
  unfold last_level. destruct ls as [|l' ls]; [reflexivity|].
  rewrite last_cons_cons. destruct (last (l' :: ls)) eqn:E; [reflexivity|].
  apply last_None in E. discriminate.
Qed.

Lemma steps_ok_snoc prev levels level :
  steps_ok prev (levels ++ [level])
  <-> steps_ok prev levels /\ 1 <= level <= last_level prev levels + 1.
Proof.
  revert prev. induction levels as [|l ls IH]; intros prev.
  - cbn. tauto.
  - cbn [app steps_ok]. rewrite IH, last_level_cons. tauto.
Qed.

(** A table of contents whose levels nest is the table of a forest. *)
Lemma entries_forest entries :
  steps_ok 0 (map Entry.level entries) ->
  Forall (fun entry => Entry.level entry <= 9) entries ->
  exists forest,
    flat_map (entries_of 1) forest = entries
    /\ Forall (fun t => (eheight t <= 9)%nat) forest.
Proof.
  intros Hsteps Hmax.
  assert (H : exists forest,
    flat_map (entries_of 1) forest = entries
    /\ Forall (fun t => (eheight t <= 9)%nat) forest
    /\ spine (Z.to_nat (last_level 0 (map Entry.level entries))) forest).
  2:{ destruct H as (forest & ? & ? & _). eauto. }
  induction entries as [|entry entries IH] using rev_ind.
  - exists []. split; [reflexivity|]. split; [constructor|apply spine_0].
  - rewrite map_app in Hsteps. cbn [map] in Hsteps.
    apply steps_ok_snoc in Hsteps as [Hsteps Hl].
    apply Forall_app in Hmax as [Hmax Hle]. apply Forall_cons in Hle as [Hle _].
    destruct (IH Hsteps Hmax) as (forest & Hpre & Hh & Hsp).
    destruct entry as [title level page]. cbn [Entry.level] in *.
    apply (spine_le _ (Z.to_nat (level - 1))) in Hsp; [|lia].
    destruct (spine_add _ _ Hsp 1 title page 9%nat Hh ltac:(lia))
      as (forest' & Hpre' & Hsp' & Hh').
    exists forest'. split; [|split; [exact Hh'|]].
    + rewrite Hpre', Hpre. do 3 f_equal. lia.
    + rewrite map_app. cbn [map Entry.level]. unfold last_level.
      rewrite last_snoc. cbn [default from_option id].
      replace (Z.to_nat level) with (S (Z.to_nat (level - 1))) by lia.
      exact Hsp'.
Qed.

(** The levels of the outline of a built store lie between 1 and 9 and
    nest. *)
Lemma outline_levels doc_len entries tree outline :
  dump_tree (build_bookmark_tree entries) = Some tree ->
  tree_to_toc doc_len tree [] 0 = Some outline ->
  steps_ok 0 (map toc_level outline)
  /\ Forall (fun r => toc_level r <= 9) outline.
Proof.
  intros Hdump Htoc. rewrite tree_to_toc_outline in Htoc.
  destruct (forallb page_is_number tree); [|discriminate].
  injection Htoc as <-. cbn [app]. split.
  - rewrite map_map.
    change (map (fun dn => toc_level (record_of doc_len dn))
                (flat_map (nodes_with_depth (0 + 1)) tree))
      with (map fst (forest_nodes tree)).
    apply steps_ok_forest.
  - destruct (build_deep entries) as (F & HF & Hdeep & _).
    set (b := build_bookmark_tree entries) in *.
    rewrite (dump_shaped _ _ HF) in Hdump. injection Hdump as <-.
    apply Forall_map. clear HF.
    induction Hdeep as [|t F Ht _ IH]; [constructor|].
    cbn. apply Forall_app. split; [|exact IH].
    pose proof (deep_depths _ (store b) _ _ (levels_of_bound entries) Ht) as Hle.
    eapply Forall_impl; [exact Hle|]. cbn. intros dn Hdn. exact Hdn.
Qed.

(** X12: from a table of contents in the order of the document, whose
    headings nest at most nine deep, the builder builds the tree of the
    table: the headings of level 1 are the roots, and the headings
    between a heading and the next one of its level or above are its
    descendants, each a child of the last heading one level above it, all
    in the order of the table. *)
Theorem build_of_preorder forest :
  Forall (fun t => (eheight t <= 9)%nat) forest ->
  dump_tree (build_bookmark_tree (flat_map (entries_of 1) forest))
  = Some (map bookmark_tree forest).
Proof. apply dump_build_preorder. Qed.

Lemma build_of_preorder_witness :
  dump_tree (build_bookmark_tree (flat_map (entries_of 1) example_contents))
  = Some (map bookmark_tree example_contents).
Proof.
  apply (build_of_preorder example_contents).
  constructor; [cbn; lia|constructor; [cbn; lia|constructor]].
Defined.

(** X13: the outline the projector reads from the built tree is the list
    of the entries itself, each with its level, its title and its page
    clamped, in the order of the entries, exactly when the levels of the
    entries nest: the first is 1, each of the others is at least 1 and at
    most one more than the one before it, and none is above 9. *)
Theorem outline_is_entries_iff doc_len entries :
  (exists tree,
     dump_tree (build_bookmark_tree entries) = Some tree
     /\ tree_to_toc doc_len tree [] 0
        = Some (map (record_of_entry doc_len) entries))
  <-> steps_ok 0 (map Entry.level entries)
      /\ Forall (fun entry => Entry.level entry <= 9) entries.
Proof.
  split.
  - intros (tree & Hdump & Htoc).
    destruct (outline_levels _ _ _ _ Hdump Htoc) as [Hsteps Hmax].
    rewrite map_map in Hsteps. rewrite Forall_map in Hmax. auto.
  - intros [Hsteps Hmax].
    destruct (entries_forest entries Hsteps Hmax) as (forest & <- & Hh).
    exists (map bookmark_tree forest).
    split; [apply dump_build_preorder, Hh|apply tree_to_toc_bookmark_tree].
Qed.

(** X14: the outline of a bookmark tree as the builder writes it, at most
    nine deep and with its pages within the document, holds the whole
    tree: the builder builds the same tree again from the records of the
    outline taken as entries. *)
Theorem rebuild_from_outline doc_len forest :
  Forall (fun t => (eheight t <= 9)%nat) forest ->
  forallb (pages_within doc_len) forest = true ->
  exists outline,
    tree_to_toc doc_len (map bookmark_tree forest) [] 0 = Some outline
    /\ dump_tree (build_bookmark_tree (map entry_of_record outline))
       = Some (map bookmark_tree forest).
Proof.
  intros Hh Hp.
  exists (map (record_of_entry doc_len) (flat_map (entries_of 1) forest)).
  split; [apply tree_to_toc_bookmark_tree|].
  replace (map entry_of_record
             (map (record_of_entry doc_len) (flat_map (entries_of 1) forest)))
    with (flat_map (entries_of 1) forest); [apply dump_build_preorder, Hh|].
  clear Hh. induction forest as [|t ts IH]; [reflexivity|].
  cbn [forallb] in Hp. apply andb_prop in Hp as [Ht Hts].
  cbn [flat_map]. rewrite !map_app, entry_of_record_of_entry, <- IH by assumption.
  reflexivity.
Qed.

Lemma rebuild_from_outline_witness :
  exists outline,
    tree_to_toc 10 (map bookmark_tree example_contents) [] 0 = Some outline
    /\ dump_tree (build_bookmark_tree (map entry_of_record outline))
       = Some (map bookmark_tree example_contents).
Proof.
  apply (rebuild_from_outline 10 example_contents); [|reflexivity].
  constructor; [cbn; lia|constructor; [cbn; lia|constructor]].
Defined.
